(** * youwee: deep-link validation and download-retry policy

    A shallow embedding of [src/lib/external-link.ts] and
    [src/lib/download-retry.ts].

    Strings are sequences of character codes in the range 0..255 (the
    Latin-1 part of a JavaScript string); the string primitives below
    follow ECMAScript on that range.  Regular expressions are embedded
    as a small syntax tree with a backtracking matcher that explores the
    alternatives in the order of the ECMAScript matcher. *)

From Stdlib Require Import String Ascii List Bool Arith NArith ZArith QArith Lia Lqa.
From Stdlib Require DecimalString DecimalN DecimalPos.
Import ListNotations.

Open Scope string_scope.

(** ** JavaScript string primitives *)

Module Js.

Definition code (c : ascii) : N := N_of_ascii c.

Definition inRange (lo hi : ascii) (c : ascii) : bool :=
  ((code lo <=? code c) && (code c <=? code hi))%N.

(** WhiteSpace and LineTerminator code points below 256: TAB, LF, VT, FF,
    CR, SP and NBSP.  They are what [String.prototype.trim] removes and
    what the class [\s] matches. *)
Definition isWhiteSpace (c : ascii) : bool :=
  let n := code c in
  ((9 <=? n) && (n <=? 13) || (n =? 32) || (n =? 160))%N.

(** [\d] *)
Definition isDigit (c : ascii) : bool := inRange "0" "9" c.

(** [\w]: ASCII letters, digits and underscore. *)
Definition isWordChar (c : ascii) : bool :=
  inRange "a" "z" c || inRange "A" "Z" c || isDigit c || Ascii.eqb c "_".

(** [.] matches everything but a line terminator. *)
Definition isLineTerminator (c : ascii) : bool :=
  ((code c =? 10) || (code c =? 13))%N.

(** Lower-case mapping of one code unit: A-Z, and the Latin-1 capitals
    U+00C0..U+00DE except the multiplication sign U+00D7. *)
Definition toLowerChar (c : ascii) : ascii :=
  let n := code c in
  if ((65 <=? n) && (n <=? 90) || (192 <=? n) && (n <=? 222) && negb (n =? 215))%N
  then ascii_of_N (n + 32)
  else c.

(** The canonicalisation used by a case-insensitive regular expression
    for a pattern character that is ASCII: only A-Z and a-z fold together
    (a non-ASCII character never canonicalises to an ASCII one). *)
Definition foldAscii (c : ascii) : ascii :=
  if inRange "A" "Z" c then ascii_of_N (code c + 32) else c.

Fixpoint toLowerCase (s : string) : string :=
  match s with
  | EmptyString => EmptyString
  | String c s' => String (toLowerChar c) (toLowerCase s')
  end.

Fixpoint trimStart (s : string) : string :=
  match s with
  | EmptyString => EmptyString
  | String c s' => if isWhiteSpace c then trimStart s' else s
  end.

Fixpoint trimEnd (s : string) : string :=
  match s with
  | EmptyString => EmptyString
  | String c s' =>
      match trimEnd s' with
      | EmptyString => if isWhiteSpace c then EmptyString else String c EmptyString
      | t => String c t
      end
  end.

Definition trim (s : string) : string := trimEnd (trimStart s).

Fixpoint startsWith (p s : string) : bool :=
  match p, s with
  | EmptyString, _ => true
  | String a p', String b s' => Ascii.eqb a b && startsWith p' s'
  | String _ _, EmptyString => false
  end.

Fixpoint endsWith (p s : string) : bool :=
  String.eqb s p ||
  match s with
  | EmptyString => false
  | String _ s' => endsWith p s'
  end.

Fixpoint includes (p s : string) : bool :=
  startsWith p s ||
  match s with
  | EmptyString => false
  | String _ s' => includes p s'
  end.

(** Every character of the string is in the class. *)
Fixpoint every (p : ascii -> bool) (s : string) : bool :=
  match s with
  | EmptyString => true
  | String c s' => p c && every p s'
  end.

(** [c.repeat(n)] *)
Fixpoint repeat (c : ascii) (n : nat) : string :=
  match n with
  | O => EmptyString
  | S n' => String c (repeat c n')
  end.

(** Truthiness of a string: [!s] holds exactly for the empty string. *)
Definition truthy (s : string) : bool := negb (String.eqb s "").

End Js.

(** ** Regular expressions *)

Module RegExp.

Inductive regex : Type :=
| Empty                          (* matches the empty string *)
| Char (p : ascii -> bool)       (* one character of a class *)
| Seq (r1 r2 : regex)
| Alt (r1 r2 : regex)
| Star (r : regex)               (* greedy r* *)
| Bos                            (* ^ without the m flag *)
| Eos                            (* $ without the m flag *)
| WordBoundary.                  (* \b *)

Definition isWordBefore (prev : option ascii) : bool :=
  match prev with
  | Some c => Js.isWordChar c
  | None => false
  end.

Definition isWordAt (s : string) : bool :=
  match s with
  | String c _ => Js.isWordChar c
  | EmptyString => false
  end.

Section Matcher.

Context {A : Type}.

(** [m r prev s k]: match [r] at the head of [s], where [prev] is the
    character before the current position, and hand the position reached
    to the continuation [k]; the first success in backtracking order is
    the result.  An iteration of a star that consumes nothing is
    rejected, as in ECMAScript, so a star iterates at most once per
    character left: the length of [s] bounds its loop. *)
Fixpoint m (r : regex) (prev : option ascii) (s : string)
    (k : option ascii -> string -> option A) {struct r} : option A :=
  match r with
  | Empty => k prev s
  | Char p =>
      match s with
      | String c s' => if p c then k (Some c) s' else None
      | EmptyString => None
      end
  | Seq r1 r2 => m r1 prev s (fun prev' s' => m r2 prev' s' k)
  | Alt r1 r2 =>
      match m r1 prev s k with
      | Some x => Some x
      | None => m r2 prev s k
      end
  | Star r1 =>
      (fix loop (fuel : nat) (prev : option ascii) (s : string) : option A :=
         match fuel with
         | O => k prev s
         | S fuel' =>
             match m r1 prev s
                     (fun prev' s' =>
                        if Nat.ltb (String.length s') (String.length s)
                        then loop fuel' prev' s' else None) with
             | Some x => Some x
             | None => k prev s
             end
         end) (String.length s) prev s
  | Bos => match prev with None => k prev s | Some _ => None end
  | Eos => match s with EmptyString => k prev s | String _ _ => None end
  | WordBoundary =>
      if xorb (isWordBefore prev) (isWordAt s) then k prev s else None
  end.

End Matcher.

Definition matched {B : Type} (o : option B) : bool :=
  match o with Some _ => true | None => false end.

(** The leftmost match: its start index and the text after it. *)
Fixpoint scan (r : regex) (prev : option ascii) (s : string) (i : nat)
  : option (nat * string) :=
  match m r prev s (fun _ rest => Some rest) with
  | Some rest => Some (i, rest)
  | None =>
      match s with
      | EmptyString => None
      | String c s' => scan r (Some c) s' (S i)
      end
  end.

Definition exec (r : regex) (s : string) : option (nat * string) :=
  scan r None s 0.

(** [RegExp.prototype.test] *)
Definition test (r : regex) (s : string) : bool :=
  match exec r s with Some _ => true | None => false end.

(** [String.prototype.replace] with a regular expression without the g
    flag: the leftmost match is replaced. *)
Definition replace (r : regex) (by_ : string) (s : string) : string :=
  match exec r s with
  | Some (i, rest) => substring 0 i s ++ by_ ++ rest
  | None => s
  end.

(** Pattern syntax. *)
Definition chr (c : ascii) : regex := Char (Ascii.eqb c).
Definition chri (c : ascii) : regex :=
  Char (fun x => Ascii.eqb (Js.foldAscii x) (Js.foldAscii c)).

Fixpoint lit (s : string) : regex :=
  match s with
  | EmptyString => Empty
  | String c s' => Seq (chr c) (lit s')
  end.

(** A literal under the i flag. *)
Fixpoint liti (s : string) : regex :=
  match s with
  | EmptyString => Empty
  | String c s' => Seq (chri c) (liti s')
  end.

Definition opt (r : regex) : regex := Alt r Empty.
Definition plus (r : regex) : regex := Seq r (Star r).
Definition ws : regex := Char Js.isWhiteSpace.
Definition digit : regex := Char Js.isDigit.
Definition dot : regex := Char (fun c => negb (Js.isLineTerminator c)).
Definition range (lo hi : ascii) : regex := Char (Js.inRange lo hi).

End RegExp.

Declare Scope regex_scope.
Delimit Scope regex_scope with re.
Bind Scope regex_scope with RegExp.regex.
Infix ";;" := RegExp.Seq (at level 61, right associativity) : regex_scope.
Infix "<|>" := RegExp.Alt (at level 62, right associativity) : regex_scope.

(** ** src/lib/download-retry.ts *)

Import RegExp.

Definition RETRYABLE_PATTERNS : list regex :=
  [ (* /timed?\s*out/i *)
    (liti "time" ;; opt (chri "d") ;; Star ws ;; liti "out")%re;
    (* /timeout/i *)
    liti "timeout";
    (* /connection (?:reset|aborted|closed|refused)/i *)
    (liti "connection " ;;
       (liti "reset" <|> liti "aborted" <|> liti "closed" <|> liti "refused"))%re;
    (* /network(?:\s+is)?\s+unreachable/i *)
    (liti "network" ;; opt (plus ws ;; liti "is") ;; plus ws ;; liti "unreachable")%re;
    (* /temporar(?:ily|y)\s+unavailable/i *)
    (liti "temporar" ;; (liti "ily" <|> liti "y") ;; plus ws ;; liti "unavailable")%re;
    (* /try again/i *)
    liti "try again";
    (* /too many requests/i *)
    liti "too many requests";
    (* /\b429\b/i *)
    (WordBoundary ;; liti "429" ;; WordBoundary)%re;
    (* /\b5\d{2}\b/i *)
    (WordBoundary ;; liti "5" ;; digit ;; digit ;; WordBoundary)%re;
    (* /http error 5\d{2}/i *)
    (liti "http error 5" ;; digit ;; digit)%re;
    (* /live (?:stream )?(?:ended|interrupted|is offline)/i *)
    (liti "live " ;; opt (liti "stream ") ;;
       (liti "ended" <|> liti "interrupted" <|> liti "is offline"))%re;
    (* /fragment.*(?:failed|error)/i *)
    (liti "fragment" ;; Star dot ;; (liti "failed" <|> liti "error"))%re;
    (* /unable to download video data/i *)
    liti "unable to download video data";
    (* /remote end closed connection/i *)
    liti "remote end closed connection";
    (* /tls|ssl/i *)
    (liti "tls" <|> liti "ssl")%re ].

Definition NON_RETRYABLE_PATTERNS : list regex :=
  [ liti "private video";
    liti "video unavailable";
    liti "this video is not available";
    liti "copyright";
    (* /geo(?:-|\s)?restricted/i *)
    (liti "geo" ;; opt (chri "-" <|> ws) ;; liti "restricted")%re;
    liti "not available in your country";
    liti "sign in";
    liti "login required";
    liti "unsupported url";
    liti "unsupported site";
    liti "drm";
    liti "permission denied";
    liti "no such file or directory";
    liti "invalid url" ].

(** [patterns.some((pattern) => pattern.test(text))] *)
Definition some_test (patterns : list regex) (text : string) : bool :=
  existsb (fun pattern => test pattern text) patterns.

Definition isNonRetryableError (message : string) : bool :=
  let text := Js.trim message in
  if negb (Js.truthy text) then false
  else some_test NON_RETRYABLE_PATTERNS text.

Definition isRetryableError (message : string) : bool :=
  let text := Js.trim message in
  if negb (Js.truthy text) || isNonRetryableError text then false
  else some_test RETRYABLE_PATTERNS text.


(** JavaScript numbers: every finite double is a rational, so the
    comparisons made by [Math.min] and [Math.max] are exact on [Q]. *)
Inductive number : Type :=
| NaN
| NegInfinity
| PosInfinity
| Finite (q : Q).

Definition num (z : Z) : number := Finite (inject_Z z).

(** ToBoolean of a number: 0, -0 and NaN are falsy. *)
Definition number_truthy (x : number) : bool :=
  match x with
  | NaN => false
  | Finite q => negb (Qeq_bool q 0)
  | _ => true
  end.

Definition number_leb (a b : number) : bool :=
  match a, b with
  | NaN, _ | _, NaN => false
  | NegInfinity, _ => true
  | _, PosInfinity => true
  | Finite x, Finite y => Qle_bool x y
  | _, _ => false
  end.

Definition Math_min (a b : number) : number :=
  match a, b with
  | NaN, _ | _, NaN => NaN
  | _, _ => if number_leb a b then a else b
  end.

Definition Math_max (a b : number) : number :=
  match a, b with
  | NaN, _ | _, NaN => NaN
  | _, _ => if number_leb a b then b else a
  end.

Record Limits : Type := { min : number; max : number; default : number }.

Record RetryLimits : Type := { maxAttempts : Limits; delaySeconds : Limits }.

Definition AUTO_RETRY_LIMITS : RetryLimits :=
  {| maxAttempts := {| min := num 1; max := num 10; default := num 3 |};
     delaySeconds := {| min := num 1; max := num 60; default := num 5 |} |}.

(** [value || fallback].  The annotation [value: number] is erased at run
    time, so the argument can be missing: [None] stands for [undefined]. *)
Definition or_default (value : option number) (fallback : number) : number :=
  match value with
  | Some v => if number_truthy v then v else fallback
  | None => fallback
  end.

Definition clampAutoRetryMaxAttempts (value : option number) : number :=
  let lim := maxAttempts AUTO_RETRY_LIMITS in
  Math_max (min lim) (Math_min (max lim) (or_default value (default lim))).

Definition clampAutoRetryDelaySeconds (value : option number) : number :=
  let lim := delaySeconds AUTO_RETRY_LIMITS in
  Math_max (min lim) (Math_min (max lim) (or_default value (default lim))).

(** Values of type [unknown], as far as [normalizeErrorMessage] tells them
    apart: strings; objects ([typeof] gives 'object' and the value is not
    null) with what reading their [message] property gives; everything
    else (undefined, null, booleans, numbers, bigints, symbols, functions).
    Reading a property runs the object's code when the property is an
    accessor or the object a proxy, so the read can throw.  [toStr] is the
    outcome of [String(value)], [None] when the conversion throws. *)
Inductive MessageProperty : Type :=
| MessageString (s : string)
| MessageNotString             (* absent, or any value that is not a string *)
| MessageThrows.               (* reading the property throws *)

Inductive JsValue : Type :=
| VString (s : string)
| VObject (message : MessageProperty) (toStr : option string)
| VOther (toStr : option string).

Definition String_ (v : JsValue) : option string :=
  match v with
  | VString s => Some s
  | VObject _ t => t
  | VOther t => t
  end.

(** How a call ends: with a returned string, or with an exception that
    leaves the function. *)
Inductive Completion : Type :=
| Returns (s : string)
| Throws.

(** [error.message] is read before the [try] block opens, so an exception
    of that read is not caught; one of [String(error)] is. *)
Definition normalizeErrorMessage (error : JsValue) : Completion :=
  match error with
  | VString s => Returns s
  | _ =>
      let converted :=
        match String_ error with
        | Some raw => if Js.truthy raw then raw else "Unknown error"
        | None => "Unknown error"
        end in
      match error with
      | VObject MessageThrows _ => Throws
      | VObject (MessageString maybeMessage) _ =>
          if Js.truthy (Js.trim maybeMessage) then Returns maybeMessage
          else Returns converted
      | _ => Returns converted
      end
  end.

(** A classifier applied to the outcome of a call, when there is one. *)
Definition classified (classifier : string -> bool) (c : Completion) : option bool :=
  match c with
  | Returns message => Some (classifier message)
  | Throws => None
  end.

(** The cancellable wait talks to its caller through three effects: the
    cancellation predicate, the tick observer and the one-second timer.
    A computation is the tree of these calls. *)
Inductive Eff (A : Type) : Type :=
| Ret (a : A)
| IsCancelled (k : bool -> Eff A)
| OnTick (remainingSeconds : Z) (k : Eff A)
| SetTimeout (ms : Z) (k : Eff A).

Arguments Ret {A} a.
Arguments IsCancelled {A} k.
Arguments OnTick {A} remainingSeconds k.
Arguments SetTimeout {A} ms k.

(** [Math.max(0, Math.ceil(ms / 1000))] for a whole number of
    milliseconds (exact on doubles up to 2^53). *)
Definition totalSeconds (ms : Z) : Z := Z.max 0 (- ((- ms) / 1000)).

(** The loop [for (remaining = n; remaining > 0; remaining--)] followed by
    the last poll; [hasOnTick] tells whether the optional observer was
    supplied ([onTick?.(remaining)]). *)
Fixpoint countdown (hasOnTick : bool) (remaining : nat) : Eff bool :=
  match remaining with
  | O => IsCancelled (fun c => Ret (negb c))
  | S n =>
      IsCancelled (fun c =>
        if c then Ret false
        else
          let rest := SetTimeout 1000 (countdown hasOnTick n) in
          if hasOnTick then OnTick (Z.of_nat remaining) rest else rest)
  end.

Definition waitWithCancellation (ms : Z) (hasOnTick : bool) : Eff bool :=
  countdown hasOnTick (Z.to_nat (totalSeconds ms)).

(** The caller's side: a state, and what each call does to it. *)
Record Env (S : Type) : Type := {
  isCancelled : S -> bool * S;
  onTick : Z -> S -> S;
  sleep : Z -> S -> S;
}.

Arguments isCancelled {S} _ _.
Arguments onTick {S} _ _ _.
Arguments sleep {S} _ _ _.

Inductive Event : Type :=
| EvPoll (cancelled : bool)
| EvTick (remainingSeconds : Z)
| EvSleep (ms : Z).

(** Run a computation against a caller, recording the calls made. *)
Fixpoint run {S A : Type} (env : Env S) (p : Eff A) (st : S)
  : A * S * list Event :=
  match p with
  | Ret a => (a, st, [])
  | IsCancelled k =>
      let '(c, st1) := isCancelled env st in
      let '(a, st2, tr) := run env (k c) st1 in
      (a, st2, EvPoll c :: tr)
  | OnTick n k =>
      let '(a, st2, tr) := run env k (onTick env n st) in
      (a, st2, EvTick n :: tr)
  | SetTimeout ms k =>
      let '(a, st2, tr) := run env k (sleep env ms st) in
      (a, st2, EvSleep ms :: tr)
  end.

Definition result {S A : Type} (o : A * S * list Event) : A := fst (fst o).
Definition trace {S A : Type} (o : A * S * list Event) : list Event := snd o.

Definition polls (tr : list Event) : list bool :=
  flat_map (fun e => match e with EvPoll c => [c] | _ => [] end) tr.

Definition ticks (tr : list Event) : list Z :=
  flat_map (fun e => match e with EvTick n => [n] | _ => [] end) tr.

(** One full second of the countdown, as the caller sees it. *)
Definition second (hasOnTick : bool) (remaining : Z) : list Event :=
  (EvPoll false ::
   (if hasOnTick then [EvTick remaining] else []) ++ [EvSleep 1000])%list.

(** A caller whose cancel flag is raised by the first tick it observes. *)
Definition cancelOnTick : Env bool :=
  {| isCancelled := fun flag => (flag, flag);
     onTick := fun _ _ => true;
     sleep := fun _ flag => flag |}.

(** A caller whose cancel flag is raised while the second sleep [k]
    (counted from 1) is in progress; the state is the flag and the number
    of sleeps begun. *)
Definition cancelDuringSleep (k : nat) : Env (bool * nat) :=
  {| isCancelled := fun st => (fst st, st);
     onTick := fun _ st => st;
     sleep := fun _ st =>
       let n := S (snd st) in (fst st || Nat.eqb n k, n) |}.

(** A caller that never cancels. *)
Definition neverCancelled : Env unit :=
  {| isCancelled := fun st => (false, st);
     onTick := fun _ st => st;
     sleep := fun _ st => st |}.

(** What the clamping functions are specified to do. *)
Definition falsy (value : option number) : bool :=
  match value with
  | Some v => negb (number_truthy v)
  | None => true
  end.

(** [r] is a finite number of the range [lo, hi]. *)
Definition within (lo hi : Z) (r : number) : Prop :=
  exists q, r = Finite q /\ inject_Z lo <= q /\ q <= inject_Z hi.

(** [r] is [v] clamped into [lo, hi]. *)
Definition clamped (lo hi : Z) (v r : number) : Prop :=
  match v with
  | NaN => False
  | NegInfinity => r = num lo
  | PosInfinity => r = num hi
  | Finite q =>
      exists p, r = Finite p /\
        ((q < inject_Z lo /\ p == inject_Z lo) \/
         (inject_Z hi < q /\ p == inject_Z hi) \/
         (inject_Z lo <= q /\ q <= inject_Z hi /\ p == q))
  end.

(** The remaining-seconds values of the first [j] rounds of a countdown
    from [n]: n, n-1, ... *)
Fixpoint firstSeconds (n j : nat) : list Z :=
  match j with
  | O => []
  | S j' => Z.of_nat n :: firstSeconds (pred n) j'
  end.

(** ** src/lib/external-link.ts *)

(** The platform's [URL] class, as far as this file uses it.  [newURL]
    is the constructor ([None] when it throws), [searchParams] the list of
    name-value pairs behind [url.searchParams], [searchParams_delete] the
    URL after [url.searchParams.delete(name)], and [toString] the
    serialisation [url.toString()]. *)
Class URLPlatform : Type := {
  URL : Type;
  newURL : string -> option URL;
  protocol : URL -> string;
  hostname : URL -> string;
  searchParams : URL -> list (string * string);
  searchParams_delete : string -> URL -> URL;
  toString : URL -> string;
}.

(** [searchParams.get(name)]: the first value under [name], or null. *)
Fixpoint params_get (name : string) (l : list (string * string)) : option string :=
  match l with
  | [] => None
  | (k, v) :: l' => if String.eqb k name then Some v else params_get name l'
  end.

(** [x === 'literal'] for a value [x] that is a string or null. *)
Definition strict_eq (x : option string) (literal : string) : bool :=
  match x with
  | Some s => String.eqb s literal
  | None => false
  end.

(** [searchParams.has(name)] *)
Definition params_has (name : string) (l : list (string * string)) : bool :=
  existsb (fun kv => String.eqb (fst kv) name) l.

Inductive ExternalLinkTarget : Type := TargetAuto | TargetYoutube | TargetUniversal.
Inductive ExternalLinkAction : Type := DownloadNow | QueueOnly.
Inductive ExternalRouteTarget : Type := RouteYoutube | RouteUniversal.

(** [ExternalRouteTarget] is a subtype of [ExternalLinkTarget]. *)
Definition targetOfRoute (r : ExternalRouteTarget) : ExternalLinkTarget :=
  match r with
  | RouteYoutube => TargetYoutube
  | RouteUniversal => TargetUniversal
  end.

Inductive MediaType : Type := Audio | Video.
Inductive AudioBitrate : Type := Bitrate128 | BitrateAuto.

(** [ExternalEnqueueOptions]; [quality] keeps the string of the source
    ('audio' or a video quality), [audioBitrate] is present on the audio
    variant only. *)
Record ExternalEnqueueOptions : Type := {
  mediaType : MediaType;
  quality : string;
  audioBitrate : option AudioBitrate;
}.

Record ExternalLinkRequest : Type := {
  raw : string;
  url : string;
  target : ExternalLinkTarget;
  action : ExternalLinkAction;
  enqueueOptions : ExternalEnqueueOptions;
  source : option string;
}.

Definition MAX_EXTERNAL_DEEPLINK_LENGTH : nat := 4096.
Definition TRUSTED_EXTERNAL_SOURCES : list string := ["ext-chromium"; "ext-firefox"].

(** [Set.prototype.has] on a set of strings. *)
Definition set_has (set : list string) (x : string) : bool :=
  existsb (String.eqb x) set.

Definition normalizeExternalSource (source : option string) : option string :=
  match source with
  | None => None
  | Some src =>
      let normalized := Js.toLowerCase (Js.trim src) in
      if negb (Js.truthy normalized) then None
      else if set_has TRUSTED_EXTERNAL_SOURCES normalized then Some normalized
      else None
  end.

Definition isTrustedExternalSource (source : option string) : bool :=
  match source with
  | None => false
  | Some src => Js.truthy src && set_has TRUSTED_EXTERNAL_SOURCES src
  end.

Definition isPrivateOrLocalHost (hostname : string) : bool :=
  let host :=
    replace (lit "]" ;; Eos)%re ""
      (replace (Bos ;; lit "[")%re "" (Js.toLowerCase hostname)) in
  if negb (Js.truthy host) then true
  else if
    String.eqb host "localhost" ||
    String.eqb host "0.0.0.0" ||
    String.eqb host "::" ||
    String.eqb host "::1" ||
    Js.endsWith ".localhost" host ||
    Js.endsWith ".local" host ||
    Js.endsWith ".internal" host
  then true
  else if
    test (Bos ;; lit "127.")%re host ||
    test (Bos ;; lit "10.")%re host ||
    test (Bos ;; lit "192.168.")%re host ||
    test (Bos ;; lit "169.254.")%re host ||
    (* /^172\.(1[6-9]|2\d|3[0-1])\./ *)
    test (Bos ;; lit "172." ;;
          ((chr "1" ;; range "6" "9") <|> (chr "2" ;; digit) <|> (chr "3" ;; range "0" "1")) ;;
          lit ".")%re host
  then true
  else if Js.includes ":" host
  then Js.startsWith "fe80:" host || Js.startsWith "fc" host || Js.startsWith "fd" host
  else false.

(** The host classifier as the specification words it. *)
Definition stripLeadingBracket (s : string) : string :=
  match s with
  | String c s' => if Ascii.eqb "[" c then s' else s
  | EmptyString => s
  end.

Definition stripTrailingBracket (s : string) : string :=
  if Js.endsWith "]" s then substring 0 (String.length s - 1) s else s.

Definition privateNames : list string := ["localhost"; "0.0.0.0"; "::"; "::1"].
Definition privateSuffixes : list string := [".localhost"; ".local"; ".internal"].
Definition privatePrefixes : list string :=
  ["127."; "10."; "192.168."; "169.254.";
   "172.16."; "172.17."; "172.18."; "172.19.";
   "172.20."; "172.21."; "172.22."; "172.23."; "172.24.";
   "172.25."; "172.26."; "172.27."; "172.28."; "172.29.";
   "172.30."; "172.31."].
Definition privateIPv6Prefixes : list string := ["fe80:"; "fc"; "fd"].

Definition isPrivateOrLocalHost_spec (hostname : string) : bool :=
  let host := stripTrailingBracket (stripLeadingBracket (Js.toLowerCase hostname)) in
  String.eqb host "" ||
  set_has privateNames host ||
  existsb (fun suffix => Js.endsWith suffix host) privateSuffixes ||
  existsb (fun prefix => Js.startsWith prefix host) privatePrefixes ||
  Js.includes ":" host &&
    existsb (fun prefix => Js.startsWith prefix host) privateIPv6Prefixes.

Definition allowedVideoQualities : list string :=
  ["best"; "8k"; "4k"; "2k"; "1080"; "720"; "480"; "360"].

Definition isYouTubeHost (hostname : string) : bool :=
  String.eqb hostname "youtube.com" ||
  String.eqb hostname "www.youtube.com" ||
  String.eqb hostname "m.youtube.com" ||
  String.eqb hostname "music.youtube.com" ||
  String.eqb hostname "youtu.be".

Section ExternalLink.

Context {P : URLPlatform}.

(** [isSafeUrl] of [./utils], a string-level filter the parser applies
    before and after normalisation. *)
Variable isSafeUrl : string -> bool.

Definition isPublicHttpUrl (url : string) : bool :=
  match newURL url with
  | Some parsed =>
      if negb (String.eqb (protocol parsed) "http:") &&
         negb (String.eqb (protocol parsed) "https:")
      then false
      else negb (isPrivateOrLocalHost (hostname parsed))
  | None => false
  end.

Definition parseEnqueueOptions (parsed : URL) : ExternalEnqueueOptions :=
  let media :=
    if strict_eq (params_get "media" (searchParams parsed)) "audio"
    then Audio else Video in
  let qualityParam :=
    match params_get "quality" (searchParams parsed) with
    | Some q => if Js.truthy q then q else ""
    | None => ""
    end in
  match media with
  | Audio =>
      let audioBitrate :=
        if String.eqb qualityParam "128" then Bitrate128 else BitrateAuto in
      {| mediaType := Audio; quality := "audio"; audioBitrate := Some audioBitrate |}
  | Video =>
      let quality :=
        if set_has allowedVideoQualities qualityParam then qualityParam else "best" in
      {| mediaType := Video; quality := quality; audioBitrate := None |}
  end.

Definition isYouTubeUrl (url : string) : bool :=
  match newURL url with
  | Some parsed => isYouTubeHost (Js.toLowerCase (hostname parsed))
  | None => false
  end.

(** The state of [parsed] in [normalizeExternalVideoUrl] when it is
    serialised: the playlist parameters are deleted from the URL of a
    single video. *)
Definition normalizedURL (parsed : URL) : URL :=
  let host := Js.toLowerCase (hostname parsed) in
  if isYouTubeHost host then
    let hasVideoId :=
      params_has "v" (searchParams parsed) || String.eqb host "youtu.be" in
    if hasVideoId
    then searchParams_delete "index" (searchParams_delete "list" parsed)
    else parsed
  else parsed.

Definition normalizeExternalVideoUrl (url : string) : string :=
  match newURL url with
  | Some parsed => toString (normalizedURL parsed)
  | None => url
  end.

Definition parseExternalDeepLink (raw : string) : option ExternalLinkRequest :=
  if negb (Js.truthy raw) || Nat.ltb MAX_EXTERNAL_DEEPLINK_LENGTH (String.length raw)
  then None
  else
    match newURL raw with
    | None => None
    | Some parsed =>
        if negb (String.eqb (protocol parsed) "youwee:") ||
           negb (String.eqb (hostname parsed) "download")
        then None
        else
          if negb (strict_eq (params_get "v" (searchParams parsed)) "1")
          then None
          else
              let urlParam := option_map Js.trim (params_get "url" (searchParams parsed)) in
              match urlParam with
              | None => None
              | Some urlParam =>
                  if negb (Js.truthy urlParam) || negb (isSafeUrl urlParam) then None
                  else
                    let normalizedUrl := normalizeExternalVideoUrl urlParam in
                    if negb (isSafeUrl normalizedUrl) || negb (isPublicHttpUrl normalizedUrl)
                    then None
                    else
                      let targetParam := params_get "target" (searchParams parsed) in
                      let target :=
                        if strict_eq targetParam "youtube" then TargetYoutube
                        else if strict_eq targetParam "universal" then TargetUniversal
                        else TargetAuto in
                      let actionParam := params_get "action" (searchParams parsed) in
                      let action :=
                        if strict_eq actionParam "queue_only" then QueueOnly
                        else DownloadNow in
                      Some {| raw := raw;
                              url := normalizedUrl;
                              target := target;
                              action := action;
                              enqueueOptions := parseEnqueueOptions parsed;
                              source := normalizeExternalSource
                                          (params_get "source" (searchParams parsed)) |}
              end
    end.

(** The request built by [parseExternalDeepLink] from an accepted link. *)
Definition request (raw : string) (parsed : URL) (urlParam : string) : ExternalLinkRequest :=
  let targetParam := params_get "target" (searchParams parsed) in
  let actionParam := params_get "action" (searchParams parsed) in
  {| raw := raw;
     url := normalizeExternalVideoUrl urlParam;
     target := if strict_eq targetParam "youtube" then TargetYoutube
               else if strict_eq targetParam "universal" then TargetUniversal
               else TargetAuto;
     action := if strict_eq actionParam "queue_only" then QueueOnly else DownloadNow;
     enqueueOptions := parseEnqueueOptions parsed;
     source := normalizeExternalSource (params_get "source" (searchParams parsed)) |}.

(** The checks of [parseExternalDeepLink], in its order; none of them
    reads the [media] or the [quality] parameter. *)
Definition accepted (raw : string) (parsed : URL) (urlParam : string) : Prop :=
  raw <> "" /\
  (String.length raw <= MAX_EXTERNAL_DEEPLINK_LENGTH)%nat /\
  newURL raw = Some parsed /\
  protocol parsed = "youwee:" /\
  hostname parsed = "download" /\
  params_get "v" (searchParams parsed) = Some "1" /\
  option_map Js.trim (params_get "url" (searchParams parsed)) = Some urlParam /\
  urlParam <> "" /\
  isSafeUrl urlParam = true /\
  isSafeUrl (normalizeExternalVideoUrl urlParam) = true /\
  isPublicHttpUrl (normalizeExternalVideoUrl urlParam) = true.

Definition resolveExternalRouteTarget (preferredTarget : ExternalLinkTarget)
    (url : string) : ExternalRouteTarget :=
  match preferredTarget with
  | TargetYoutube => RouteYoutube
  | TargetUniversal => RouteUniversal
  | TargetAuto => if isYouTubeUrl url then RouteYoutube else RouteUniversal
  end.

End ExternalLink.

(** What [normalizeExternalVideoUrl] relies on from the platform.
    Deleting a search parameter leaves the host alone, removes the pairs
    of that name, and is idempotent and order-independent (the query is
    rewritten from the list each time). *)
Class URLSearchParamsLaws (P : URLPlatform) : Prop := {
  delete_hostname : forall name u,
    hostname (searchParams_delete name u) = hostname u;
  delete_searchParams : forall name u,
    searchParams (searchParams_delete name u) =
    filter (fun kv => negb (String.eqb (fst kv) name)) (searchParams u);
  delete_idempotent : forall name u,
    searchParams_delete name (searchParams_delete name u) = searchParams_delete name u;
  delete_commutes : forall a b u,
    searchParams_delete a (searchParams_delete b u) =
    searchParams_delete b (searchParams_delete a u);
}.

(** The URL Standard's round trip, for the URL that [url] normalises to:
    parsing its serialisation gives the same URL back. *)
Definition Reparses {P : URLPlatform} (url : string) : Prop :=
  forall parsed, newURL url = Some parsed ->
    newURL (toString (normalizedURL parsed)) = Some (normalizedURL parsed).

(** The URLs a program can come to hold: those the constructor returns
    and those that deleting search parameters makes of them. *)
Inductive Reachable {P : URLPlatform} : URL -> Prop :=
| Reachable_new (input : string) (parsed : URL) :
    newURL input = Some parsed -> Reachable parsed
| Reachable_delete (name : string) (u : URL) :
    Reachable u -> Reachable (searchParams_delete name u).

(** The round trip of the platform's parser and serialiser, for every
    URL: the serialisation of a URL parses, and parses to that URL. *)
Class URLRoundTrip (P : URLPlatform) : Prop := {
  round_trip : forall u : URL, Reachable u -> newURL (toString u) = Some u;
}.

(** ** A reference instance of the platform

    A parser and serialiser for the URLs of the shape
    [scheme://host/path?query#fragment] written in unreserved ASCII,
    following the URL Standard on that fragment.  It declines (as if the
    constructor threw) every input outside the fragment: credentials,
    ports, IPv6 literals, http and https hosts whose last label starts
    with a digit unless they are a canonical dotted quad, punycode
    labels, path segments that start with a dot, escapes in the path,
    characters that the Standard would percent-encode, escapes of
    non-ASCII bytes, and the special schemes other than http and https.
    The theorems below hold for every platform; this instance evaluates
    the functions on concrete links, and it is shown to obey the laws
    that some of the theorems ask of a platform. *)

Module WebURL.

Record t : Type := {
  scheme : string;
  host : string;
  path : string;
  query : option string;
  fragment : option string;
  params : list (string * string);
}.

(** The longest prefix free of [p], and what follows it. *)
Fixpoint breakAt (p : ascii -> bool) (s : string) : string * string :=
  match s with
  | EmptyString => (EmptyString, EmptyString)
  | String c s' =>
      if p c then (EmptyString, s)
      else let '(a, b) := breakAt p s' in (String c a, b)
  end.

Fixpoint splitOn (sep : ascii) (s : string) : list string :=
  match s with
  | EmptyString => [EmptyString]
  | String c s' =>
      if Ascii.eqb c sep then EmptyString :: splitOn sep s'
      else
        match splitOn sep s' with
        | h :: t => String c h :: t
        | [] => [String c EmptyString]
        end
  end.

Definition oneOf (set : string) (c : ascii) : bool :=
  Js.includes (String c EmptyString) set.

Definition isAlpha (c : ascii) : bool := Js.inRange "a" "z" c || Js.inRange "A" "Z" c.
Definition isAlnum (c : ascii) : bool := isAlpha c || Js.isDigit c.

(** Characters that no component of the fragment needs to escape. *)
Definition plainChar (c : ascii) : bool := isAlnum c || oneOf "-._~:/?#=&+%!$*,;()" c.
Definition schemeChar (c : ascii) : bool := isAlnum c || oneOf "+-." c.
Definition hostChar (c : ascii) : bool := isAlnum c || oneOf "-." c.

Definition hexValue (c : ascii) : option N :=
  if Js.isDigit c then Some (Js.code c - 48)%N
  else if Js.inRange "a" "f" c then Some (Js.code c - 87)%N
  else if Js.inRange "A" "F" c then Some (Js.code c - 55)%N
  else None.

Definition hexDigit (n : N) : ascii :=
  if (n <? 10)%N then ascii_of_N (48 + n) else ascii_of_N (55 + n).

Definition percentByte (n : N) : string :=
  String "%" (String (hexDigit (n / 16)) (String (hexDigit (n mod 16)) EmptyString)).

Fixpoint percentDecode (s : string) : string :=
  match s with
  | EmptyString => EmptyString
  | String c s' =>
      match s' with
      | String h (String l rest) =>
          match hexValue h, hexValue l with
          | Some x, Some y =>
              if Ascii.eqb c "%" then String (ascii_of_N (16 * x + y)) (percentDecode rest)
              else String c (percentDecode s')
          | _, _ => String c (percentDecode s')
          end
      | _ => String c (percentDecode s')
      end
  end.

Fixpoint plusToSpace (s : string) : string :=
  match s with
  | EmptyString => EmptyString
  | String c s' => String (if Ascii.eqb c "+" then " "%char else c) (plusToSpace s')
  end.

(** The application/x-www-form-urlencoded parser. *)
Definition parseQuery (q : string) : list (string * string) :=
  flat_map
    (fun piece =>
       match piece with
       | EmptyString => []
       | _ =>
           let '(name, rest) := breakAt (Ascii.eqb "=") piece in
           let value := match rest with String _ v => v | EmptyString => EmptyString end in
           [(percentDecode (plusToSpace name), percentDecode (plusToSpace value))]
       end)
    (splitOn "&" q).

(** The application/x-www-form-urlencoded serialiser; a code above 127 is
    written as the two bytes of its UTF-8 form. *)
Definition serializeChar (c : ascii) : string :=
  let n := Js.code c in
  if Ascii.eqb c " " then "+"
  else if isAlnum c || oneOf "*-._" c then String c EmptyString
  else if (n <? 128)%N then percentByte n
  else percentByte (192 + n / 64) ++ percentByte (128 + n mod 64).

Fixpoint serializeString (s : string) : string :=
  match s with
  | EmptyString => EmptyString
  | String c s' => serializeChar c ++ serializeString s'
  end.

Fixpoint serializeQuery (l : list (string * string)) : string :=
  match l with
  | [] => EmptyString
  | [(k, v)] => serializeString k ++ "=" ++ serializeString v
  | (k, v) :: l' => serializeString k ++ "=" ++ serializeString v ++ "&" ++ serializeQuery l'
  end.

(** An escape of a byte above 127 (outside the fragment). *)
Fixpoint highEscape (s : string) : bool :=
  match s with
  | EmptyString => false
  | String c s' =>
      match s' with
      | String h _ => Ascii.eqb c "%" && oneOf "89abcdefABCDEF" h
      | EmptyString => false
      end || highEscape s'
  end.

Fixpoint decimal (s : string) (acc : N) : option N :=
  match s with
  | EmptyString => Some acc
  | String c s' => if Js.isDigit c then decimal s' (10 * acc + (Js.code c - 48))%N else None
  end.

(** A decimal octet in canonical form. *)
Definition octet (s : string) : bool :=
  match s with
  | EmptyString => false
  | String c s' =>
      (negb (Ascii.eqb c "0") || String.eqb s' "") &&
      match decimal s 0 with
      | Some n => (n <=? 255)%N
      | None => false
      end
  end.

Definition startsWithDigit (s : string) : bool :=
  match s with
  | String c _ => Js.isDigit c
  | EmptyString => false
  end.

(** Hosts of http and https URLs that the fragment covers: non-empty
    labels, no punycode, and a host ending in a numeric label only when it
    is a dotted quad in canonical form. *)
Definition domainOk (h : string) : bool :=
  let labels := splitOn "." h in
  forallb (fun l => negb (String.eqb l "")) labels &&
  negb (Js.includes "xn--" h) &&
  (negb (startsWithDigit (last labels EmptyString)) ||
   (Nat.eqb (List.length labels) 4 && forallb octet labels)).

Definition declinedScheme (sch : string) : bool :=
  existsb (String.eqb sch) ["ftp"; "file"; "ws"; "wss"].

Definition parse (input : string) : option t :=
  if negb (Js.every plainChar input) then None
  else
    let '(sch, rest) := breakAt (Ascii.eqb ":") input in
    match sch, rest with
    | String c0 _, String _ (String "/" (String "/" rest2)) =>
        let scheme := Js.toLowerCase sch in
        let special := String.eqb scheme "http" || String.eqb scheme "https" in
        let '(authority, rest3) := breakAt (oneOf "/?#") rest2 in
        let host := if special then Js.toLowerCase authority else authority in
        let '(path0, rest4) := breakAt (oneOf "?#") rest3 in
        let path := if special && String.eqb path0 "" then "/" else path0 in
        let '(query, rest5) :=
          match rest4 with
          | String "?" r => let '(q, r') := breakAt (Ascii.eqb "#") r in (Some q, r')
          | _ => (None, rest4)
          end in
        let fragment :=
          match rest5 with
          | String _ f => Some f
          | EmptyString => None
          end in
        if isAlpha c0 && Js.every schemeChar sch && negb (declinedScheme scheme) &&
           Js.every hostChar authority && (negb special || domainOk host) &&
           negb (Js.includes "/." path0) && negb (Js.includes "%" path0) &&
           negb (highEscape (match query with Some q => q | None => EmptyString end))
        then
          Some {| scheme := scheme; host := host; path := path;
                  query := query; fragment := fragment;
                  params := match query with
                            | Some q => parseQuery q
                            | None => []
                            end |}
        else None
    | _, _ => None
    end.

Definition serialize (u : t) : string :=
  scheme u ++ "://" ++ host u ++ path u ++
  match query u with Some q => "?" ++ q | None => EmptyString end ++
  match fragment u with Some f => "#" ++ f | None => EmptyString end.

(** [searchParams.delete(name)]: drop the pairs called [name], then update
    the query of the URL from the list (null when the list is empty). *)
Definition delete (name : string) (u : t) : t :=
  let l := filter (fun kv => negb (String.eqb (fst kv) name)) (params u) in
  let q := serializeQuery l in
  {| scheme := scheme u; host := host u; path := path u;
     query := if String.eqb q "" then None else Some q;
     fragment := fragment u;
     params := l |}.

#[export] Instance platform : URLPlatform :=
  {| URL := t;
     newURL := parse;
     protocol := fun u => scheme u ++ ":";
     hostname := host;
     searchParams := params;
     searchParams_delete := delete;
     toString := serialize |}.

(** Modelled from the spec: [isSafeUrl] of [./utils] is not part of the
    sources at hand; the spec describes it as a string-level filter that
    rejects, for instance, control characters.  This stand-in rejects
    exactly the strings that hold a control character. *)
Definition isSafeUrl (s : string) : bool :=
  Js.every (fun c => negb ((Js.code c <? 32) || (Js.code c =? 127))%N) s.

Definition parseLink : string -> option ExternalLinkRequest :=
  parseExternalDeepLink isSafeUrl.

(** The link of the specification's example and the request it gives. *)
Definition exampleLink : string :=
  "youwee://download?v=1&url=https://youtube.com/watch?v=abc123".

Definition exampleRequest : ExternalLinkRequest :=
  {| raw := exampleLink;
     url := "https://youtube.com/watch?v=abc123";
     target := TargetAuto;
     action := DownloadNow;
     enqueueOptions := {| mediaType := Video; quality := "best"; audioBitrate := None |};
     source := None |}.

(** A link with an escaped playlist url, audio options and a source. *)
Definition audioLink : string :=
  "youwee://download?v=1&url=https%3A%2F%2Fwww.YouTube.com%2Fwatch%3Fv%3Dabc%26list%3DPL1%26index%3D2&media=audio&quality=128&source=%20EXT-Firefox".

Definition audioRequest : ExternalLinkRequest :=
  {| raw := audioLink;
     url := "https://www.youtube.com/watch?v=abc";
     target := TargetAuto;
     action := DownloadNow;
     enqueueOptions :=
       {| mediaType := Audio; quality := "audio"; audioBitrate := Some Bitrate128 |};
     source := Some "ext-firefox" |}.

End WebURL.

(** ** The URLs of the reference instance

    What holds of every URL that the reference parser returns and is
    kept when search parameters are deleted. *)

Definition isSpecial (u : WebURL.t) : bool :=
  String.eqb (WebURL.scheme u) "http" || String.eqb (WebURL.scheme u) "https".

Definition isAsciiChar (c : ascii) : bool := (Js.code c <? 128)%N.

Definition asciiPair (kv : string * string) : Prop :=
  Js.every isAsciiChar (fst kv) = true /\ Js.every isAsciiChar (snd kv) = true.

(** No character of the class. *)
Definition free (p : ascii -> bool) (s : string) : Prop :=
  Js.every (fun c => negb (p c)) s = true.

(** Empty, or starting with a character of the class. *)
Definition stops (p : ascii -> bool) (s : string) : Prop :=
  match s with
  | EmptyString => True
  | String c _ => p c = true
  end.

(** A text in ASCII without escapes of bytes above 127. *)
Definition lowEscapes (s : string) : Prop :=
  Js.every isAsciiChar s = true /\ WebURL.highEscape s = false.

(** The characters the serialiser of search parameters writes. *)
Definition writtenChar (c : ascii) : bool :=
  WebURL.isAlnum c || WebURL.oneOf "*-._+%" c.

(** One pair as the serialiser writes it. *)
Definition serializePair (kv : string * string) : string :=
  WebURL.serializeString (fst kv) ++ "=" ++ WebURL.serializeString (snd kv).

(** What the parser of search parameters makes of one piece of a query. *)
Definition parsePiece (piece : string) : list (string * string) :=
  match piece with
  | EmptyString => []
  | _ =>
      let '(name, rest) := WebURL.breakAt (Ascii.eqb "=") piece in
      let value := match rest with String _ v => v | EmptyString => EmptyString end in
      [(WebURL.percentDecode (WebURL.plusToSpace name),
        WebURL.percentDecode (WebURL.plusToSpace value))]
  end.

Record WellFormed (u : WebURL.t) : Prop := {
  wf_scheme_alpha :
    match WebURL.scheme u with
    | String c0 _ => WebURL.isAlpha c0 = true
    | EmptyString => False
    end;
  wf_scheme_chars : Js.every WebURL.schemeChar (WebURL.scheme u) = true;
  wf_scheme_lower : Js.toLowerCase (WebURL.scheme u) = WebURL.scheme u;
  wf_scheme_kept : WebURL.declinedScheme (WebURL.scheme u) = false;
  wf_host_chars : Js.every WebURL.hostChar (WebURL.host u) = true;
  wf_host_special :
    isSpecial u = true ->
    Js.toLowerCase (WebURL.host u) = WebURL.host u /\ WebURL.domainOk (WebURL.host u) = true;
  wf_path_plain : Js.every WebURL.plainChar (WebURL.path u) = true;
  wf_path_free : free (WebURL.oneOf "?#") (WebURL.path u);
  wf_path_start :
    match WebURL.path u with
    | EmptyString => isSpecial u = false
    | String c _ => c = "/"%char
    end;
  wf_path_dots : Js.includes "/." (WebURL.path u) = false;
  wf_path_escapes : Js.includes "%" (WebURL.path u) = false;
  wf_query :
    match WebURL.query u with
    | Some q =>
        Js.every WebURL.plainChar q = true /\ free (Ascii.eqb "#") q /\
        WebURL.highEscape q = false /\ WebURL.params u = WebURL.parseQuery q
    | None => WebURL.params u = []
    end;
  wf_fragment :
    match WebURL.fragment u with
    | Some f => Js.every WebURL.plainChar f = true
    | None => True
    end;
  wf_params : Forall asciiPair (WebURL.params u);
}.

(** ** Notions used by the further properties *)

(** Characters of the textual form of an IP address: hexadecimal
    digits, the colon and the dot. *)
Definition addressChar (c : ascii) : bool :=
  Js.isDigit c || Js.inRange "a" "f" c || Js.inRange "A" "F" c ||
  Ascii.eqb c ":" || Ascii.eqb c ".".

(** The characters of the embedding: the code units 0..255. *)
Definition allChars : list ascii := map ascii_of_nat (seq 0 256).

(** A text with its letters A-Z replaced by a-z and every other code
    unit kept as it is. *)
Fixpoint foldLetters (s : string) : string :=
  match s with
  | EmptyString => EmptyString
  | String c s' => String (Js.foldAscii c) (foldLetters s')
  end.

(** A pattern none of whose character classes tells a letter A-Z from
    its lower-case form. *)
Fixpoint caseBlind (r : regex) : bool :=
  match r with
  | Char p => forallb (fun c => Bool.eqb (p (Js.foldAscii c)) (p c)) allChars
  | Seq r1 r2 | Alt r1 r2 => caseBlind r1 && caseBlind r2
  | Star r1 => caseBlind r1
  | Empty | Bos | Eos | WordBoundary => true
  end.

(** The timers started in a trace, by their delay in milliseconds, and the
    milliseconds slept in all. *)
Definition sleeps (tr : list Event) : list Z :=
  flat_map (fun e => match e with EvSleep ms => [ms] | _ => [] end) tr.

Definition sleptMs (tr : list Event) : Z :=
  fold_right (fun e acc => match e with EvSleep ms => ms + acc | _ => acc end)%Z 0%Z tr.

(** ** The video preview (the component [VideoPreview]) *)

Section Sort.

Context {A : Type}.

(** [before a b]: the comparator of [sort] does not put [b] before [a]
    (its value on [(a, b)] is not positive). *)
Variable before : A -> A -> bool.

Fixpoint insertSorted (x : A) (l : list A) : list A :=
  match l with
  | [] => [x]
  | y :: l' => if before x y then x :: l else y :: insertSorted x l'
  end.

(** [Array.prototype.sort] with a comparator that orders the elements
    consistently: the stable sort, here by insertion. *)
Fixpoint sort (l : list A) : list A :=
  match l with
  | [] => []
  | x :: l' => insertSorted x (sort l')
  end.

End Sort.

(** A list in the order of the comparator: nothing is put before an
    element that comes earlier. *)
Fixpoint ordered {A : Type} (before : A -> A -> bool) (l : list A) : Prop :=
  match l with
  | [] => True
  | x :: l' => (forall y, In y l' -> before x y = true) /\ ordered before l'
  end.

Module Preview.

(** [Number.prototype.toString] on a whole number below 10^21 in
    magnitude: its decimal digits, after a minus sign when negative. *)
Definition Number_toString (z : Z) : string := DecimalString.NilZero.string_of_int (Z.to_int z).

(** [s.padStart(n, c)] for a one-character filler. *)
Definition padStart (n : nat) (c : ascii) (s : string) : string :=
  Js.repeat c (n - String.length s) ++ s.

(** [formatDuration], for a whole number of seconds; [None] is null.
    [%] is the remainder that takes the sign of the dividend, and
    [Math.floor] of the quotient is the floor division. *)
Definition formatDuration (seconds : option Z) : string :=
  match seconds with
  | None => "--:--"
  | Some seconds =>
      if (seconds =? 0)%Z then "--:--"
      else
        let hrs := (seconds / 3600)%Z in
        let mins := (Z.rem seconds 3600 / 60)%Z in
        let secs := Z.rem seconds 60 in
        if (0 <? hrs)%Z
        then Number_toString hrs ++ ":" ++ padStart 2 "0" (Number_toString mins) ++ ":" ++
             padStart 2 "0" (Number_toString secs)
        else Number_toString mins ++ ":" ++ padStart 2 "0" (Number_toString secs)
  end.

(** [formatDate]; [slice(a, b)] is the substring of length b - a at a. *)
Definition formatDate (dateStr : option string) : string :=
  match dateStr with
  | None => ""
  | Some dateStr =>
      if negb (Js.truthy dateStr) || negb (Nat.eqb (String.length dateStr) 8) then ""
      else
        let year := substring 0 4 dateStr in
        let month := substring 4 2 dateStr in
        let day := substring 6 2 dateStr in
        year ++ "-" ++ month ++ "-" ++ day
  end.

(** Reading a formatted duration back: decimal fields between colons,
    minutes and seconds, with hours before them when there are three. *)
Definition readDecimal (t : string) : option Z :=
  option_map (fun d => Z.of_N (N.of_uint d)) (DecimalString.NilZero.uint_of_string t).

Definition parseClock (t : string) : option Z :=
  match map readDecimal (WebURL.splitOn ":" t) with
  | [Some m; Some s] => Some (60 * m + s)%Z
  | [Some h; Some m; Some s] => Some (3600 * h + 60 * m + s)%Z
  | _ => None
  end.

(** [FormatOption] of the preview; heights and sizes are whole numbers,
    bitrates rationals, and [None] is null. *)
Record FormatOption : Type := {
  format_id : string;
  ext : string;
  resolution : option string;
  width : option Z;
  height : option Z;
  vcodec : option string;
  acodec : option string;
  filesize : option Z;
  filesize_approx : option Z;
  tbr : option Q;
  format_note : option string;
  fps : option Q;
  quality : option Q;
}.

(** Truthiness of a string or null, and of a number or null. *)
Definition truthyString (s : option string) : bool :=
  match s with Some s => Js.truthy s | None => false end.

Definition truthyZ (z : option Z) : bool :=
  match z with Some z => negb (z =? 0)%Z | None => false end.

(** [x || 0] *)
Definition orZeroZ (z : option Z) : Z :=
  match z with Some z => z | None => 0%Z end.

Definition orZeroQ (q : option Q) : Q :=
  match q with Some q => if Qeq_bool q 0 then 0 else q | None => 0 end.



(** [(a, b) => (b.height || 0) - (a.height || 0)] is not positive. *)
Definition byHeightDesc (a b : FormatOption) : bool :=
  (orZeroZ (height b) - orZeroZ (height a) <=? 0)%Z.

(** [(a, b) => (b.tbr || 0) - (a.tbr || 0)] is not positive. *)
Definition byTbrDesc (a b : FormatOption) : bool :=
  Qle_bool (orZeroQ (tbr b) - orZeroQ (tbr a)) 0.

Definition isVideoFormat (f : FormatOption) : bool :=
  truthyString (vcodec f) && negb (strict_eq (vcodec f) "none") && truthyZ (height f).

Definition isAudioFormat (f : FormatOption) : bool :=
  truthyString (acodec f) && negb (strict_eq (acodec f) "none") &&
  (negb (truthyString (vcodec f)) || strict_eq (vcodec f) "none").

Definition videoFormats (formats : list FormatOption) : list FormatOption :=
  sort byHeightDesc (filter isVideoFormat formats).

Definition audioFormats (formats : list FormatOption) : list FormatOption :=
  sort byTbrDesc (filter isAudioFormat formats).

(** Four formats: two videos, a video without height and an audio. *)
Definition exampleFormat (id : string) (h : option Z) (vc ac : option string)
    (rate : option Q) : FormatOption :=
  {| format_id := id; ext := "mp4"; resolution := None; width := None; height := h;
     vcodec := vc; acodec := ac; filesize := None; filesize_approx := None;
     tbr := rate; format_note := None; fps := None; quality := None |}.

Definition exampleFormats : list FormatOption :=
  [ exampleFormat "136" (Some 720%Z) (Some "avc1") (Some "none") (Some (1200 # 1));
    exampleFormat "137" (Some 1080%Z) (Some "avc1") (Some "none") (Some (2500 # 1));
    exampleFormat "sb0" None (Some "mjpeg") (Some "none") None;
    exampleFormat "140" None (Some "none") (Some "mp4a") (Some (129 # 1)) ].

End Preview.

(** ** src/components/subtitles/SubtitleStyleProfileDialog.tsx *)

Definition commonFonts : list string :=
  ["Arial"; "Helvetica"; "Verdana"; "Tahoma"; "Times New Roman"; "Georgia";
   "Noto Sans"; "Roboto"; "Inter"].

Definition customFontValue : string := "__custom_font__".

(** The value of the font preset select:
    [commonFonts.find((font) => font.toLowerCase() ===
       fontName.trim().toLowerCase()) || customFontValue]. *)
Definition fontPresetValue (fontName : string) : string :=
  match find (fun font =>
                String.eqb (Js.toLowerCase font) (Js.toLowerCase (Js.trim fontName)))
             commonFonts with
  | Some font => if Js.truthy font then font else customFontValue
  | None => customFontValue
  end.

(** [onValueChange] of the select: the font name after the user picks
    [value]. *)
Definition onValueChange (value fontName : string) : string :=
  if String.eqb value customFontValue then fontName else value.

(** [a !== b] on numbers: NaN differs from everything, itself included. *)
Definition number_strict_neq (a b : number) : bool :=
  match a, b with
  | Finite p, Finite q => negb (Qeq_bool p q)
  | NegInfinity, NegInfinity => false
  | PosInfinity, PosInfinity => false
  | _, _ => true
  end.

Record Thresholds : Type := {
  maxCps : number;
  maxWpm : number;
  maxCpl : number;
  minGapMs : number;
  minDurationMs : number;
  maxDurationMs : number;
}.

(** What [applyProfileRules] calls on the subtitle context and on the
    dialog state. *)
Inductive DialogCall (Entry : Type) : Type :=
| SetStyleProfile (id : string)
| ReplaceAllEntries (entries : list Entry) (label : string)
| SetAppliedCount (count : nat).

Arguments SetStyleProfile {Entry} id.
Arguments ReplaceAllEntries {Entry} entries label.
Arguments SetAppliedCount {Entry} count.

Section ApplyProfileRules.

(** A subtitle entry, of which the dialog reads the text and the two
    times; the fixes of [lib/subtitle-fixes] and the profile table of
    [lib/subtitle-style-profiles] are those of the caller. *)
Variable Entry : Type.
Variable text : Entry -> string.
Variable startTime endTime : Entry -> number.
Variable getSubtitleStyleProfile : string -> Thresholds.
Variable fixLineBreaking : list Entry -> number -> list Entry.
Variable fixShortDuration : list Entry -> number -> list Entry.
Variable fixLongDuration : list Entry -> number -> list Entry.
Variable fixGaps : list Entry -> number -> number -> list Entry.

Definition entryChanged (before after : Entry) : bool :=
  negb (String.eqb (text before) (text after)) ||
  number_strict_neq (startTime before) (startTime after) ||
  number_strict_neq (endTime before) (endTime after).

(** The loop over [subtitle.entries]: index [i] counts when [result[i]]
    exists and differs. *)
Fixpoint countChanged (entries result : list Entry) : nat :=
  match entries, result with
  | before :: entries', after :: result' =>
      (if entryChanged before after then 1 else 0) + countChanged entries' result'
  | _, _ => 0
  end.

Definition fixedEntries (selectedProfileId : string) (entries : list Entry) : list Entry :=
  let thresholds := getSubtitleStyleProfile selectedProfileId in
  let result := fixLineBreaking entries (maxCpl thresholds) in
  let result := fixShortDuration result (minDurationMs thresholds) in
  let result := fixLongDuration result (maxDurationMs thresholds) in
  fixGaps result (minGapMs thresholds) (minDurationMs thresholds).

Definition applyProfileRules (selectedProfileId : string) (entries : list Entry)
  : list (DialogCall Entry) :=
  let result := fixedEntries selectedProfileId entries in
  let changed := countChanged entries result in
  (SetStyleProfile selectedProfileId ::
   (if Nat.ltb 0 changed
    then [ReplaceAllEntries result ("Apply style profile: " ++ selectedProfileId)]
    else []) ++
   [SetAppliedCount changed])%list.

End ApplyProfileRules.

(** Two fix pipelines on entries that are bare texts with fixed times:
    one lower-cases every text, the other drops the last entry. *)
Module DialogExample.

Definition thresholds : Thresholds :=
  {| maxCps := num 17; maxWpm := num 180; maxCpl := num 42;
     minGapMs := num 80; minDurationMs := num 1000; maxDurationMs := num 7000 |}.

Definition keep (l : list string) (_ : number) : list string := l.

Definition lowerCasing : string -> list string -> list (DialogCall string) :=
  applyProfileRules string (fun e => e) (fun _ => num 0) (fun _ => num 1)
    (fun _ => thresholds) (fun l _ => map Js.toLowerCase l) keep keep (fun l _ _ => l).

Definition dropping : string -> list string -> list (DialogCall string) :=
  applyProfileRules string (fun e => e) (fun _ => num 0) (fun _ => num 1)
    (fun _ => thresholds) keep keep keep (fun l _ _ => removelast l).

End DialogExample.

(** * Properties *)

(** ** Strings *)

Lemma truthy_false (s : string) : Js.truthy s = false <-> s = "".
Proof.
  unfold Js.truthy. rewrite negb_false_iff. apply String.eqb_eq.
Qed.

Lemma truthy_true (s : string) : Js.truthy s = true <-> s <> "".
Proof.
  unfold Js.truthy. rewrite negb_true_iff. apply String.eqb_neq.
Qed.

Lemma trimStart_head (s : string) (c : ascii) (t : string) :
  Js.trimStart s = String c t -> Js.isWhiteSpace c = false.
Proof.
  induction s as [|a s IH]; simpl; [discriminate|].
  destruct (Js.isWhiteSpace a) eqn:Ea; [exact IH|].
  intros H. injection H as -> _. exact Ea.
Qed.

Lemma trimEnd_cons (c : ascii) (t : string) :
  Js.isWhiteSpace c = false ->
  Js.trimEnd (String c t) = String c (Js.trimEnd t).
Proof.
  intros Hc. simpl. rewrite Hc. destruct (Js.trimEnd t); reflexivity.
Qed.

Lemma trimEnd_idem (s : string) : Js.trimEnd (Js.trimEnd s) = Js.trimEnd s.
Proof.
  induction s as [|c s IH]; [reflexivity|].
  change (Js.trimEnd (String c s)) with
    (match Js.trimEnd s with
     | EmptyString => if Js.isWhiteSpace c then EmptyString else String c EmptyString
     | String a t => String c (String a t)
     end).
  destruct (Js.trimEnd s) as [|a t] eqn:E.
  - destruct (Js.isWhiteSpace c) eqn:Ec; [reflexivity|].
    simpl. rewrite Ec. reflexivity.
  - change (Js.trimEnd (String c (String a t))) with
      (match Js.trimEnd (String a t) with
       | EmptyString => if Js.isWhiteSpace c then EmptyString else String c EmptyString
       | String a' t' => String c (String a' t')
       end).
    rewrite IH. reflexivity.
Qed.

Lemma trim_idem (s : string) : Js.trim (Js.trim s) = Js.trim s.
Proof.
  unfold Js.trim.
  destruct (Js.trimStart s) as [|c t] eqn:E; [reflexivity|].
  pose proof (trimStart_head _ _ _ E) as Hc.
  rewrite (trimEnd_cons c t Hc).
  simpl Js.trimStart. rewrite Hc.
  rewrite <- (trimEnd_cons c t Hc). apply trimEnd_idem.
Qed.

Lemma trimStart_blank (s : string) :
  Js.every Js.isWhiteSpace s = true -> Js.trimStart s = "".
Proof.
  induction s as [|c s IH]; simpl; [reflexivity|].
  intros H. apply andb_true_iff in H as [Hc Hs]. rewrite Hc. auto.
Qed.

Lemma trim_blank (s : string) :
  Js.every Js.isWhiteSpace s = true -> Js.trim s = "".
Proof.
  intros H. unfold Js.trim. rewrite (trimStart_blank s H). reflexivity.
Qed.

(** ** Retry classification *)

Lemma isNonRetryableError_trim (message : string) :
  isNonRetryableError (Js.trim message) = isNonRetryableError message.
Proof.
  unfold isNonRetryableError. rewrite trim_idem. reflexivity.
Qed.

Lemma isRetryableError_blank (message : string) :
  Js.trim message = "" -> isRetryableError message = false.
Proof.
  intros H. unfold isRetryableError. rewrite H. reflexivity.
Qed.

(** C4.  A message classified as non-retryable is never classified as
    retryable, whatever retryable pattern it also matches; and a blank
    message (empty after trimming, in particular one made of white space
    only) is not retryable. *)
Theorem non_retryable_precedence (message : string) :
  (isNonRetryableError message = true -> isRetryableError message = false) /\
  (Js.trim message = "" -> isRetryableError message = false) /\
  (Js.every Js.isWhiteSpace message = true -> isRetryableError message = false).
Proof.
  split; [|split].
  - intros H. unfold isRetryableError.
    rewrite isNonRetryableError_trim, H, orb_true_r.
    reflexivity.
  - apply isRetryableError_blank.
  - intros H. apply isRetryableError_blank, trim_blank, H.
Qed.

(** A message that matches a pattern of each list: the non-retryable one
    wins. *)
Lemma non_retryable_precedence_witness :
  (some_test NON_RETRYABLE_PATTERNS "Private video: HTTP Error 503, try again" = true /\
   some_test RETRYABLE_PATTERNS "Private video: HTTP Error 503, try again" = true) /\
  isRetryableError "Private video: HTTP Error 503, try again" = false /\
  isRetryableError "" = false /\
  isRetryableError "   " = false.
Proof.
  split; [split; vm_compute; reflexivity|].
  split; [|split].
  - apply (proj1 (non_retryable_precedence _)). vm_compute. reflexivity.
  - apply (proj1 (proj2 (non_retryable_precedence _))). reflexivity.
  - apply (proj2 (proj2 (non_retryable_precedence _))). reflexivity.
Defined.

(** ** Retry limits *)

(** C6.  Both clamping functions substitute their default (3 attempts,
    5 seconds) for a falsy argument (zero, NaN, undefined), clamp every
    other argument into [1, 10] and [1, 60], and so always return a
    number of the range; clampAutoRetryMaxAttempts(0) = 3 and
    clampAutoRetryMaxAttempts(999) = 10. *)
Theorem clamp_auto_retry (value : option number) :
  (falsy value = true ->
     clampAutoRetryMaxAttempts value = num 3 /\
     clampAutoRetryDelaySeconds value = num 5) /\
  (forall v, value = Some v -> number_truthy v = true ->
     clamped 1 10 v (clampAutoRetryMaxAttempts value) /\
     clamped 1 60 v (clampAutoRetryDelaySeconds value)) /\
  within 1 10 (clampAutoRetryMaxAttempts value) /\
  within 1 60 (clampAutoRetryDelaySeconds value) /\
  clampAutoRetryMaxAttempts (Some (num 0)) = num 3 /\
  clampAutoRetryMaxAttempts (Some (num 999)) = num 10 /\
  clampAutoRetryMaxAttempts (Some NaN) = num 3 /\
  clampAutoRetryMaxAttempts None = num 3.
Proof.
  assert (Hle : forall a b, Qle_bool a b = false -> b < a).
  { intros a b H. apply Qnot_le_lt. intros Hab.
    apply Qle_bool_iff in Hab. congruence. }
  split; [|split; [|split; [|split]]].
  - destruct value as [[| | |q]|]; simpl; try discriminate; try (split; reflexivity).
    intros H. apply negb_true_iff in H.
    unfold clampAutoRetryMaxAttempts, clampAutoRetryDelaySeconds, or_default.
    simpl number_truthy. rewrite H. split; reflexivity.
  - intros v -> Hv.
    destruct v as [| | |q]; [discriminate| split; reflexivity | split; reflexivity |].
    unfold clampAutoRetryMaxAttempts, clampAutoRetryDelaySeconds, or_default.
    rewrite Hv. simpl.
    split.
    + destruct (Qle_bool (inject_Z 10) q) eqn:E10; simpl.
      * apply Qle_bool_iff in E10. exists (inject_Z 10). split; [reflexivity|].
        destruct (Qlt_le_dec (inject_Z 10) q) as [Hlt|Hge].
        -- right; left. split; [exact Hlt | reflexivity].
        -- right; right. unfold inject_Z in *. repeat split; lra.
      * apply Hle in E10.
        destruct (Qle_bool (inject_Z 1) q) eqn:E1.
        -- apply Qle_bool_iff in E1. exists q. split; [reflexivity|].
           right; right. unfold inject_Z in *. repeat split; lra.
        -- apply Hle in E1. exists (inject_Z 1). split; [reflexivity|].
           left. split; [exact E1 | reflexivity].
    + destruct (Qle_bool (inject_Z 60) q) eqn:E60; simpl.
      * apply Qle_bool_iff in E60. exists (inject_Z 60). split; [reflexivity|].
        destruct (Qlt_le_dec (inject_Z 60) q) as [Hlt|Hge].
        -- right; left. split; [exact Hlt | reflexivity].
        -- right; right. unfold inject_Z in *. repeat split; lra.
      * apply Hle in E60.
        destruct (Qle_bool (inject_Z 1) q) eqn:E1.
        -- apply Qle_bool_iff in E1. exists q. split; [reflexivity|].
           right; right. unfold inject_Z in *. repeat split; lra.
        -- apply Hle in E1. exists (inject_Z 1). split; [reflexivity|].
           left. split; [exact E1 | reflexivity].
  - unfold within, clampAutoRetryMaxAttempts, or_default.
    destruct value as [[| | |q]|]; simpl;
      try (eexists; split; [reflexivity | unfold inject_Z; split; lra]).
    destruct (Qeq_bool q 0); simpl;
      try (eexists; split; [reflexivity | unfold inject_Z; split; lra]).
    destruct (Qle_bool (inject_Z 10) q) eqn:E10; simpl;
      try (eexists; split; [reflexivity | unfold inject_Z; split; lra]).
    apply Hle in E10.
    destruct (Qle_bool (inject_Z 1) q) eqn:E1;
      [apply Qle_bool_iff in E1 | apply Hle in E1];
      (eexists; split; [reflexivity | unfold inject_Z in *; split; lra]).
  - unfold within, clampAutoRetryDelaySeconds, or_default.
    destruct value as [[| | |q]|]; simpl;
      try (eexists; split; [reflexivity | unfold inject_Z; split; lra]).
    destruct (Qeq_bool q 0); simpl;
      try (eexists; split; [reflexivity | unfold inject_Z; split; lra]).
    destruct (Qle_bool (inject_Z 60) q) eqn:E60; simpl;
      try (eexists; split; [reflexivity | unfold inject_Z; split; lra]).
    apply Hle in E60.
    destruct (Qle_bool (inject_Z 1) q) eqn:E1;
      [apply Qle_bool_iff in E1 | apply Hle in E1];
      (eexists; split; [reflexivity | unfold inject_Z in *; split; lra]).
  - repeat split; reflexivity.
Qed.

Lemma clamp_auto_retry_witness :
  (clampAutoRetryMaxAttempts (Some (num 0)) = num 3 /\
   clampAutoRetryDelaySeconds (Some (num 0)) = num 5) /\
  (clamped 1 10 (num 999) (clampAutoRetryMaxAttempts (Some (num 999))) /\
   clamped 1 60 (num 999) (clampAutoRetryDelaySeconds (Some (num 999)))).
Proof.
  split.
  - apply (proj1 (clamp_auto_retry (Some (num 0)))). reflexivity.
  - apply (proj1 (proj2 (clamp_auto_retry (Some (num 999)))) (num 999));
      reflexivity.
Defined.

(** ** Error normalisation *)

(** C10.  A string is returned verbatim, the empty string included, so
    the result can be blank.  For an input that is not a string the call
    ends with an exception exactly when reading its [message] throws, and
    otherwise returns a string that is never empty; 'Unknown error' is
    produced from such inputs alone, a string giving it only when it is
    that text itself.  An object whose message is a blank string is
    converted with [String], with 'Unknown error' when the conversion
    throws or gives the empty string; a message that is not blank is
    returned as it is. *)
Theorem normalizeErrorMessage_string_verbatim :
  (forall s, normalizeErrorMessage (VString s) = Returns s) /\
  normalizeErrorMessage (VString "") = Returns "" /\
  (forall error,
     normalizeErrorMessage error = Throws <->
     exists t, error = VObject MessageThrows t) /\
  (forall error, (forall s, error <> VString s) ->
     (forall t, error <> VObject MessageThrows t) ->
     exists out, normalizeErrorMessage error = Returns out /\ out <> "") /\
  (forall error out, (forall s, error <> VString s) ->
     normalizeErrorMessage error = Returns out -> out <> "") /\
  (forall mm t, Js.trim mm = "" ->
     normalizeErrorMessage (VObject (MessageString mm) t) =
     Returns match t with
             | Some raw => if Js.truthy raw then raw else "Unknown error"
             | None => "Unknown error"
             end) /\
  (forall mm t, Js.trim mm <> "" ->
     normalizeErrorMessage (VObject (MessageString mm) t) = Returns mm).
Proof.
  assert (Hfallback : forall t : option string,
            match t with
            | Some raw => if Js.truthy raw then raw else "Unknown error"
            | None => "Unknown error"
            end <> "").
  { intros [raw|]; [|discriminate].
    destruct (Js.truthy raw) eqn:E; [|discriminate].
    apply truthy_true, E. }
  assert (Hreturned : forall error out, (forall s, error <> VString s) ->
            normalizeErrorMessage error = Returns out -> out <> "").
  { intros [s|msg t|t] out Hns.
    - exfalso. exact (Hns s eq_refl).
    - destruct msg as [mm| |]; simpl.
      + destruct (Js.truthy (Js.trim mm)) eqn:E; intros [= <-].
        * intros ->. discriminate E.
        * apply Hfallback.
      + intros [= <-]. apply Hfallback.
      + discriminate.
    - simpl. intros [= <-]. apply Hfallback. }
  split; [reflexivity|]. split; [reflexivity|].
  split; [|split; [|split; [exact Hreturned|split]]].
  - intros error. split.
    + destruct error as [s|[mm| |] t|t]; simpl; try discriminate.
      * destruct (Js.truthy (Js.trim mm)); discriminate.
      * intros _. exists t. reflexivity.
    + intros [t ->]. reflexivity.
  - intros error Hns Hread.
    destruct (normalizeErrorMessage error) as [out|] eqn:E.
    + exists out. split; [reflexivity|]. exact (Hreturned error out Hns E).
    + exfalso. destruct error as [s|[mm| |] t|t]; simpl in E; try discriminate.
      * destruct (Js.truthy (Js.trim mm)); discriminate.
      * exact (Hread t eq_refl).
  - intros mm t H. simpl. rewrite H. reflexivity.
  - intros mm t H. simpl. apply truthy_true in H. rewrite H. reflexivity.
Qed.

Lemma normalizeErrorMessage_string_verbatim_witness :
  normalizeErrorMessage (VObject (MessageString "  ") (Some "[object Object]"))
    = Returns "[object Object]" /\
  normalizeErrorMessage (VObject (MessageString " HTTP Error 503 ") None)
    = Returns " HTTP Error 503 " /\
  (exists out, normalizeErrorMessage (VOther (Some "")) = Returns out /\ out <> "") /\
  normalizeErrorMessage (VObject MessageThrows (Some "[object Object]")) = Throws.
Proof.
  pose proof normalizeErrorMessage_string_verbatim
    as (_ & _ & Hthrows & Hne & _ & Hblank & Hmsg).
  split; [|split; [|split]].
  - apply (Hblank "  " (Some "[object Object]")). reflexivity.
  - apply (Hmsg " HTTP Error 503 " None). discriminate.
  - apply (Hne (VOther (Some ""))); discriminate.
  - apply (proj2 (Hthrows (VObject MessageThrows (Some "[object Object]")))).
    exists (Some "[object Object]"). reflexivity.
Defined.

(** ** Cancellable wait *)

Lemma totalSeconds_ceil (ms : Z) :
  (0 < ms -> 1000 * (totalSeconds ms - 1) < ms <= 1000 * totalSeconds ms)%Z /\
  (ms <= 0 -> totalSeconds ms = 0)%Z.
Proof.
  unfold totalSeconds. split; intros H.
  - pose proof (Z.div_mod (- ms) 1000 ltac:(lia)) as Hdm.
    pose proof (Z.mod_pos_bound (- ms) 1000 ltac:(lia)) as Hb.
    lia.
  - pose proof (Z.div_pos (- ms) 1000 ltac:(lia) ltac:(lia)). lia.
Qed.

Lemma countdown_trace {S : Type} (env : Env S) (hasOnTick : bool) (n : nat) :
  forall st : S,
  let o := run env (countdown hasOnTick n) st in
  exists (j : nat) (b : bool),
    (j <= n)%nat /\
    trace o = (flat_map (second hasOnTick) (firstSeconds n j) ++ [EvPoll b])%list /\
    result o = negb b /\
    ((j < n)%nat -> b = true).
Proof.
  induction n as [|n IH]; intros st; cbn zeta.
  - exists 0%nat. simpl. destruct (isCancelled env st) as [c st1].
    exists c. repeat split; auto. lia.
  - cbn [countdown run].
    destruct (isCancelled env st) as [c st1]. destruct c.
    + exists 0%nat, true. simpl. repeat split; auto. lia.
    + destruct hasOnTick.
      * cbn [run].
        specialize (IH (sleep env 1000 (onTick env (Z.of_nat (Datatypes.S n)) st1))).
        cbn zeta in IH. destruct IH as (j & b & Hj & Htr & Hres & Hlt).
        destruct (run env (countdown true n) _) as [[a st2] tr].
        unfold trace, result in *. cbn [fst snd] in *.
        exists (Datatypes.S j), b. repeat split; [lia | | exact Hres | intros; apply Hlt; lia].
        cbn [firstSeconds flat_map pred second app]. rewrite Htr. reflexivity.
      * cbn [run].
        specialize (IH (sleep env 1000 st1)).
        cbn zeta in IH. destruct IH as (j & b & Hj & Htr & Hres & Hlt).
        destruct (run env (countdown false n) _) as [[a st2] tr].
        unfold trace, result in *. cbn [fst snd] in *.
        exists (Datatypes.S j), b. repeat split; [lia | | exact Hres | intros; apply Hlt; lia].
        cbn [firstSeconds flat_map pred second app]. rewrite Htr. reflexivity.
Qed.

Lemma polls_rounds (hasOnTick : bool) (l : list Z) (b : bool) :
  polls (flat_map (second hasOnTick) l ++ [EvPoll b])%list =
  (repeat false (List.length l) ++ [b])%list.
Proof.
  induction l as [|x l IH]; [reflexivity|].
  cbn [flat_map second]. unfold polls in *.
  destruct hasOnTick; simpl in *; rewrite IH; reflexivity.
Qed.

Lemma ticks_rounds (hasOnTick : bool) (l : list Z) (b : bool) :
  ticks (flat_map (second hasOnTick) l ++ [EvPoll b])%list = if hasOnTick then l else [].
Proof.
  induction l as [|x l IH]; [destruct hasOnTick; reflexivity|].
  cbn [flat_map second]. unfold ticks in *.
  destruct hasOnTick; simpl in *; rewrite IH; reflexivity.
Qed.

Lemma firstSeconds_length (n j : nat) : List.length (firstSeconds n j) = j.
Proof.
  revert n. induction j as [|j IH]; intros n; simpl; [reflexivity|].
  rewrite IH. reflexivity.
Qed.

Lemma nth_error_after_false (j : nat) (l : list bool) :
  forall k, nth_error (repeat false j ++ l)%list k = Some true -> (j <= k)%nat.
Proof.
  induction j as [|j IH]; intros k H; [lia|].
  destruct k as [|k]; simpl in H; [discriminate|].
  apply IH in H. lia.
Qed.

Lemma in_repeat_false (j : nat) (b : bool) :
  In true (repeat false j ++ [b])%list -> b = true.
Proof.
  intros H. apply in_app_or in H as [H|[H|[]]]; [|auto].
  apply repeat_spec in H. discriminate.
Qed.

(** C5.  The wait lasts the millisecond duration rounded up to whole
    seconds (one second for 1ms, none for a duration that is not
    positive).  As seen by the caller it is a run of full seconds, each
    one a poll that reports not cancelled, the tick with the remaining
    seconds when an observer was supplied, and a sleep of 1000ms; then
    one more poll.  A poll that reports cancelled ends it with false; the
    result is true exactly when all the polls, one per second and the one
    after the loop, report not cancelled.  When the poll number [k]
    (counted from 0) reports cancelled, at most [k] ticks were made: a
    wait of 3000ms whose caller cancels at the first tick, or during the
    first or second sleep, returns false after at most two ticks. *)
Theorem waitWithCancellation_polls {S : Type} (env : Env S) (st : S)
    (ms : Z) (hasOnTick : bool) :
  let n := Z.to_nat (totalSeconds ms) in
  let o := run env (waitWithCancellation ms hasOnTick) st in
  ((0 < ms -> 1000 * (totalSeconds ms - 1) < ms <= 1000 * totalSeconds ms)%Z /\
   (ms <= 0 -> totalSeconds ms = 0)%Z /\
   totalSeconds 1 = 1%Z /\ totalSeconds 3000 = 3%Z) /\
  (exists (j : nat) (b : bool),
     (j <= n)%nat /\
     trace o = (flat_map (second hasOnTick) (firstSeconds n j) ++ [EvPoll b])%list /\
     result o = negb b /\
     ((j < n)%nat -> b = true)) /\
  (In true (polls (trace o)) -> result o = false) /\
  (result o = true <-> polls (trace o) = repeat false (Datatypes.S n)) /\
  (result o = true -> ticks (trace o) = if hasOnTick then firstSeconds n n else []) /\
  (forall k, nth_error (polls (trace o)) k = Some true ->
     (List.length (ticks (trace o)) <= k)%nat) /\
  run cancelOnTick (waitWithCancellation 3000 true) false =
    (false, true, [EvPoll false; EvTick 3; EvSleep 1000; EvPoll true]) /\
  run (cancelDuringSleep 1) (waitWithCancellation 3000 true) (false, 0%nat) =
    (false, (true, 1%nat), [EvPoll false; EvTick 3; EvSleep 1000; EvPoll true]) /\
  run (cancelDuringSleep 2) (waitWithCancellation 3000 true) (false, 0%nat) =
    (false, (true, 2%nat),
     [EvPoll false; EvTick 3; EvSleep 1000;
      EvPoll false; EvTick 2; EvSleep 1000; EvPoll true]) /\
  run neverCancelled (waitWithCancellation 1 true) tt =
    (true, tt, [EvPoll false; EvTick 1; EvSleep 1000; EvPoll false]).
Proof.
  cbv zeta. unfold waitWithCancellation.
  set (n := Z.to_nat (totalSeconds ms)).
  destruct (countdown_trace env hasOnTick n st) as (j & b & Hj & Htr & Hres & Hlt).
  cbv zeta in Htr, Hres.
  set (o := run env (countdown hasOnTick n) st) in *.
  assert (Hpolls : polls (trace o) = (repeat false j ++ [b])%list).
  { rewrite Htr, polls_rounds, firstSeconds_length. reflexivity. }
  assert (Hticks : ticks (trace o) = if hasOnTick then firstSeconds n j else []).
  { rewrite Htr, ticks_rounds. reflexivity. }
  split.
  { pose proof (totalSeconds_ceil ms) as [H1 H2].
    repeat split; try reflexivity; try apply H1; auto. }
  split.
  { exists j, b. auto. }
  split.
  { rewrite Hpolls. intros H. apply in_repeat_false in H. subst b. exact Hres. }
  split.
  { rewrite Hpolls, Hres. split.
    - intros Hb. apply negb_true_iff in Hb. subst b.
      assert (j = n) by (destruct (Nat.eq_dec j n); [assumption|];
                         assert (false = true) by (apply Hlt; lia); discriminate).
      subst j. cbn [repeat]. rewrite repeat_cons. reflexivity.
    - intros H.
      assert (Hlen : j = n).
      { apply (f_equal (@List.length bool)) in H.
        rewrite length_app, !repeat_length in H. simpl in H. lia. }
      subst j. cbn [repeat] in H. rewrite (repeat_cons n false) in H.
      apply app_inv_head in H. injection H as ->. reflexivity. }
  split.
  { rewrite Hticks, Hres. intros Hb. apply negb_true_iff in Hb. subst b.
    assert (j = n) by (destruct (Nat.eq_dec j n); [assumption|];
                       assert (false = true) by (apply Hlt; lia); discriminate).
    subst j. reflexivity. }
  split.
  { intros k Hk. rewrite Hpolls in Hk. apply nth_error_after_false in Hk.
    rewrite Hticks. destruct hasOnTick; simpl; [|lia].
    rewrite firstSeconds_length. exact Hk. }
  repeat split; reflexivity.
Qed.

Lemma waitWithCancellation_polls_witness :
  (1000 * (totalSeconds 2500 - 1) < 2500 <= 1000 * totalSeconds 2500)%Z /\
  result (run cancelOnTick (waitWithCancellation 3000 true) false) = false /\
  (List.length (ticks (trace (run cancelOnTick (waitWithCancellation 3000 true) false))) <= 1)%nat /\
  ticks (trace (run neverCancelled (waitWithCancellation 3000 true) tt)) = [3; 2; 1]%Z.
Proof.
  pose proof (waitWithCancellation_polls cancelOnTick false 3000 true) as H.
  cbv zeta in H. destruct H as (_ & _ & Hany & _ & _ & Hk & _).
  split; [|split; [|split]].
  - apply (proj1 (proj1 (waitWithCancellation_polls neverCancelled tt 2500 true))).
    reflexivity.
  - apply Hany. simpl. right. left. reflexivity.
  - apply Hk. reflexivity.
  - apply (proj1 (proj2 (proj2 (proj2 (proj2
             (waitWithCancellation_polls neverCancelled tt 3000 true)))))).
    reflexivity.
Defined.

(** ** Regular expressions anchored at the start or at the end *)

Lemma scan_bos_later (r : regex) (s : string) :
  forall c i, scan (Bos ;; r)%re (Some c) s i = None.
Proof.
  induction s as [|a s IH]; intros c i; simpl; [reflexivity|apply IH].
Qed.

Lemma exec_bos (r : regex) (s : string) :
  exec (Bos ;; r)%re s =
  match m r None s (fun _ rest => Some rest) with
  | Some rest => Some (0%nat, rest)
  | None => None
  end.
Proof.
  unfold exec. destruct s as [|c s]; simpl.
  - destruct (m r None "" _); reflexivity.
  - destruct (m r None (String c s) _); [reflexivity|apply scan_bos_later].
Qed.

Lemma test_bos (r : regex) (s : string) :
  test (Bos ;; r)%re s = matched (m r None s (fun _ rest => Some rest)).
Proof.
  unfold test. rewrite exec_bos. destruct (m r None s _); reflexivity.
Qed.

Lemma m_lit_matched (p : string) :
  forall prev s, matched (m (lit p) prev s (fun _ rest => Some rest)) = Js.startsWith p s.
Proof.
  induction p as [|a p IH]; intros prev s.
  - destruct s; reflexivity.
  - destruct s as [|c s]; [reflexivity|].
    simpl. destruct (Ascii.eqb a c); [apply IH|reflexivity].
Qed.

Lemma test_prefix (p s : string) : test (Bos ;; lit p)%re s = Js.startsWith p s.
Proof.
  rewrite test_bos. apply m_lit_matched.
Qed.

Ltac split_char c := destruct c as [[] [] [] [] [] [] [] []]; try reflexivity.

(** Next character of [s]: either the literal [l], or the goal computes. *)
Ltac next_literal s l :=
  let c := fresh "c" in
  let E := fresh "E" in
  destruct s as [|c s]; [reflexivity|];
  destruct (Ascii.eqb l c) eqn:E;
  [apply Ascii.eqb_eq in E; subst c | cbn -[Ascii.eqb]; rewrite ?E; reflexivity].

Ltac next_char s :=
  let c := fresh "c" in
  destruct s as [|c s]; [reflexivity|]; split_char c.

(** The pattern /^172\.(1[6-9]|2\d|3[0-1])\./ accepts the sixteen prefixes
    172.16. to 172.31. and nothing else. *)
Lemma test_172 (s : string) :
  test (Bos ;; lit "172." ;;
        ((chr "1" ;; range "6" "9") <|> (chr "2" ;; digit) <|> (chr "3" ;; range "0" "1")) ;;
        lit ".")%re s =
  existsb (fun prefix => Js.startsWith prefix s)
    ["172.16."; "172.17."; "172.18."; "172.19.";
     "172.20."; "172.21."; "172.22."; "172.23."; "172.24.";
     "172.25."; "172.26."; "172.27."; "172.28."; "172.29.";
     "172.30."; "172.31."].
Proof.
  rewrite test_bos.
  next_literal s "1"%char. next_literal s "7"%char.
  next_literal s "2"%char. next_literal s "."%char.
  next_char s; next_char s; next_literal s "."%char; reflexivity.
Qed.

Lemma append_empty (s : string) : s ++ "" = s.
Proof.
  induction s as [|c s IH]; simpl; [reflexivity|rewrite IH; reflexivity].
Qed.

Lemma substring_0_0 (s : string) : substring 0 0 s = "".
Proof. destruct s; reflexivity. Qed.

Lemma replace_leading_bracket (s : string) :
  replace (Bos ;; lit "[")%re "" s = stripLeadingBracket s.
Proof.
  unfold replace. rewrite exec_bos.
  destruct s as [|c s]; [reflexivity|].
  cbn [m lit chr]. unfold stripLeadingBracket.
  destruct (Ascii.eqb "[" c); [|reflexivity].
  rewrite substring_0_0. reflexivity.
Qed.

Lemma endsWith_nonempty (p s : string) :
  p <> "" -> Js.endsWith p s = true -> s <> "".
Proof.
  intros Hp H ->. simpl in H. rewrite orb_false_r in H.
  destruct p; [auto|discriminate].
Qed.

Lemma scan_trailing_bracket (s : string) :
  forall prev i,
  scan (lit "]" ;; Eos)%re prev s i =
  if Js.endsWith "]" s then Some ((i + String.length s - 1)%nat, "") else None.
Proof.
  induction s as [|c s IH]; intros prev i; [reflexivity|].
  cbn [scan m lit chr].
  destruct (Ascii.eqb "]" c) eqn:Ec.
  - apply Ascii.eqb_eq in Ec. subst c. destruct s as [|d s].
    + simpl. replace (i + 1 - 1)%nat with i by lia. reflexivity.
    + rewrite IH.
      change (Js.endsWith "]" (String "]" (String d s)))
        with (String.eqb (String "]" (String d s)) "]" || Js.endsWith "]" (String d s)).
      replace (String.eqb (String "]" (String d s)) "]") with false by reflexivity.
      cbn [orb].
      destruct (Js.endsWith "]" (String d s)); [|reflexivity].
      f_equal. f_equal. cbn [String.length]. lia.
  - rewrite IH.
    change (Js.endsWith "]" (String c s))
      with (String.eqb (String c s) "]" || Js.endsWith "]" s).
    assert (Hne : String.eqb (String c s) "]" = false).
    { apply String.eqb_neq. intros H. injection H as -> _.
      rewrite Ascii.eqb_refl in Ec. discriminate. }
    rewrite Hne. cbn [orb].
    destruct (Js.endsWith "]" s); [|reflexivity].
    f_equal. f_equal. cbn [String.length]. lia.
Qed.

Lemma replace_trailing_bracket (s : string) :
  replace (lit "]" ;; Eos)%re "" s = stripTrailingBracket s.
Proof.
  unfold replace, exec, stripTrailingBracket.
  rewrite scan_trailing_bracket.
  destruct (Js.endsWith "]" s); [|reflexivity].
  cbn [append Nat.add]. apply append_empty.
Qed.

(** ** Host safety classifier *)

Lemma if_true_orb (a b : bool) : (if a then true else b) = a || b.
Proof. destruct a; reflexivity. Qed.

Lemma if_else_false (a b : bool) : (if a then b else false) = a && b.
Proof. destruct a; reflexivity. Qed.

(** C2.  The classifier accepts exactly the hosts of the specification:
    after lower-casing and removing a leading and a trailing bracket, the
    empty host, the four local names, the three local suffixes, the
    IPv4 prefixes 127., 10., 192.168., 169.254. and 172.16. to 172.31.,
    and the hosts with a colon that start with fe80:, fc or fd.  It holds
    of the eight private hosts of the specification and of none of the
    three public ones. *)
Theorem isPrivateOrLocalHost_refines_spec (hostname : string) :
  isPrivateOrLocalHost hostname = isPrivateOrLocalHost_spec hostname /\
  forallb isPrivateOrLocalHost
    ["127.0.0.1"; "10.0.0.1"; "192.168.1.1"; "169.254.1.1";
     "localhost"; "foo.local"; "::1"; "fe80::1"] = true /\
  existsb isPrivateOrLocalHost ["example.com"; "8.8.8.8"; "youtube.com"] = false.
Proof.
  split; [|split; vm_compute; reflexivity].
  unfold isPrivateOrLocalHost, isPrivateOrLocalHost_spec.
  rewrite replace_leading_bracket, replace_trailing_bracket.
  set (host := stripTrailingBracket (stripLeadingBracket (Js.toLowerCase hostname))).
  rewrite !test_prefix, test_172.
  rewrite !if_true_orb, if_else_false.
  unfold Js.truthy. rewrite negb_involutive.
  unfold set_has, privateNames, privateSuffixes, privatePrefixes, privateIPv6Prefixes.
  cbn [existsb].
  rewrite !orb_false_r, !orb_assoc.
  reflexivity.
Qed.

(** ** Deep links *)

Lemma strict_eq_true (x : option string) (literal : string) :
  strict_eq x literal = true <-> x = Some literal.
Proof.
  destruct x as [v|]; simpl.
  - rewrite String.eqb_eq. split; [intros ->; reflexivity|intros H; injection H; auto].
  - split; discriminate.
Qed.

Lemma strict_eq_false (x : option string) (literal : string) :
  strict_eq x literal = false <-> x <> Some literal.
Proof.
  rewrite <- strict_eq_true. destruct (strict_eq x literal); split; congruence.
Qed.

Lemma set_has_In (set : list string) (x : string) :
  set_has set x = true <-> In x set.
Proof.
  unfold set_has. rewrite existsb_exists. split.
  - intros (y & Hy & E). apply String.eqb_eq in E. subst y. exact Hy.
  - intros H. exists x. split; [exact H|apply String.eqb_refl].
Qed.

Lemma isYouTubeHost_lower (h : string) :
  isYouTubeHost h = true -> Js.toLowerCase h = h.
Proof.
  unfold isYouTubeHost. intros H.
  repeat (apply orb_true_iff in H as [H|H]);
    apply String.eqb_eq in H; subst h; reflexivity.
Qed.

Section ExternalLinkFacts.

Context {P : URLPlatform}.
Variable isSafeUrl : string -> bool.

Lemma parseExternalDeepLink_inv (raw : string) (r : ExternalLinkRequest) :
  parseExternalDeepLink isSafeUrl raw = Some r ->
  exists parsed urlParam,
    accepted isSafeUrl raw parsed urlParam /\ r = request raw parsed urlParam.
Proof.
  unfold parseExternalDeepLink.
  destruct (negb (Js.truthy raw) || _) eqn:E0; [discriminate|].
  destruct (newURL raw) as [parsed|] eqn:En; [|discriminate].
  destruct (negb (String.eqb (protocol parsed) _) || _) eqn:E1; [discriminate|].
  destruct (negb (strict_eq _ "1")) eqn:E2; [discriminate|].
  destruct (option_map Js.trim _) as [urlParam|] eqn:E3; [|discriminate].
  destruct (negb (Js.truthy urlParam) || _) eqn:E4; [discriminate|].
  cbv zeta.
  destruct (negb (isSafeUrl _) || _) eqn:E5; [discriminate|].
  intros H. injection H as <-.
  apply orb_false_iff in E0 as [E0a E0b], E1 as [E1a E1b], E4 as [E4a E4b], E5 as [E5a E5b].
  apply negb_false_iff in E0a, E1a, E1b, E2, E4a, E4b, E5a, E5b.
  exists parsed, urlParam. split; [|reflexivity].
  unfold accepted. repeat split; auto.
  - apply truthy_true, E0a.
  - apply Nat.ltb_ge, E0b.
  - apply String.eqb_eq, E1a.
  - apply String.eqb_eq, E1b.
  - apply strict_eq_true, E2.
  - apply truthy_true, E4a.
Qed.

Lemma parseExternalDeepLink_accepted (raw : string) (parsed : URL) (urlParam : string) :
  accepted isSafeUrl raw parsed urlParam ->
  parseExternalDeepLink isSafeUrl raw = Some (request raw parsed urlParam).
Proof.
  intros (H0 & H1 & H2 & H3 & H4 & H5 & H6 & H7 & H8 & H9 & H10).
  unfold parseExternalDeepLink.
  apply truthy_true in H0, H7. apply Nat.ltb_ge in H1.
  apply strict_eq_true in H5.
  rewrite H0, H1, H2, H3, H4, H5, H6, H7, H8. cbn [negb orb String.eqb Ascii.eqb Bool.eqb].
  rewrite H9, H10. reflexivity.
Qed.

(** C1.  The url of every request that [parseExternalDeepLink] returns
    passes [isPublicHttpUrl]: it parses, its scheme is http or https, and
    its host is not private or local. *)
Theorem parsed_url_is_public (raw : string) (r : ExternalLinkRequest) :
  parseExternalDeepLink isSafeUrl raw = Some r ->
  isPublicHttpUrl (url r) = true /\
  exists parsed,
    newURL (url r) = Some parsed /\
    (protocol parsed = "http:" \/ protocol parsed = "https:") /\
    isPrivateOrLocalHost (hostname parsed) = false.
Proof.
  intros H. apply parseExternalDeepLink_inv in H as (parsed & urlParam & Hacc & ->).
  destruct Hacc as (_ & _ & _ & _ & _ & _ & _ & _ & _ & _ & Hpub).
  cbn [url request]. split; [exact Hpub|].
  unfold isPublicHttpUrl in Hpub.
  destruct (newURL (normalizeExternalVideoUrl urlParam)) as [u|]; [|discriminate].
  exists u. split; [reflexivity|].
  destruct (String.eqb (protocol u) "http:") eqn:Ea;
    destruct (String.eqb (protocol u) "https:") eqn:Eb;
    cbn [negb andb] in Hpub; try discriminate;
    (split; [|apply negb_true_iff, Hpub]).
  - left. apply String.eqb_eq, Ea.
  - left. apply String.eqb_eq, Ea.
  - right. apply String.eqb_eq, Eb.
Qed.

(** C3.  [parseExternalDeepLink] returns null (it is a total function:
    nothing is thrown) for an empty link, a link of more than 4096
    characters, a link that does not parse as a URL, a scheme other than
    youwee:, a host other than download, and a version parameter [v]
    that is not the string 1. *)
Theorem rejected_links (raw : string) :
  raw = "" \/
  (4096 < String.length raw)%nat \/
  newURL raw = None \/
  (exists parsed, newURL raw = Some parsed /\
     (protocol parsed <> "youwee:" \/
      hostname parsed <> "download" \/
      params_get "v" (searchParams parsed) <> Some "1")) ->
  parseExternalDeepLink isSafeUrl raw = None.
Proof.
  intros H.
  destruct (parseExternalDeepLink isSafeUrl raw) as [r|] eqn:E; [|reflexivity].
  exfalso.
  apply parseExternalDeepLink_inv in E as (parsed & urlParam & Hacc & _).
  destruct Hacc as (H0 & H1 & H2 & H3 & H4 & H5 & _).
  destruct H as [H|[H|[H|(u & Hu & H)]]].
  - contradiction.
  - change MAX_EXTERNAL_DEEPLINK_LENGTH with 4096%nat in H1.
    apply (Nat.lt_irrefl 4096). apply (Nat.lt_le_trans _ _ _ H H1).
  - congruence.
  - assert (u = parsed) by congruence. subst u.
    destruct H as [H|[H|H]]; contradiction.
Qed.

(** C7.  An explicit youtube or universal target is returned as it is;
    for the target auto the route is youtube exactly when the url parses
    and its host, lower-cased, is one of the recognised video hosts, and
    universal otherwise, in particular when the url does not parse.  The
    result is never auto. *)
Theorem resolved_route (preferredTarget : ExternalLinkTarget) (url : string) :
  (preferredTarget <> TargetAuto ->
     targetOfRoute (resolveExternalRouteTarget preferredTarget url) = preferredTarget) /\
  (resolveExternalRouteTarget TargetAuto url = RouteYoutube <->
     exists parsed, newURL url = Some parsed /\
       isYouTubeHost (Js.toLowerCase (hostname parsed)) = true) /\
  (resolveExternalRouteTarget TargetAuto url = RouteUniversal <->
     ~ exists parsed, newURL url = Some parsed /\
       isYouTubeHost (Js.toLowerCase (hostname parsed)) = true) /\
  (forall parsed, newURL url = Some parsed ->
     isYouTubeHost (hostname parsed) = true ->
     resolveExternalRouteTarget TargetAuto url = RouteYoutube) /\
  (newURL url = None -> resolveExternalRouteTarget TargetAuto url = RouteUniversal) /\
  targetOfRoute (resolveExternalRouteTarget preferredTarget url) <> TargetAuto.
Proof.
  assert (Hyt : isYouTubeUrl url = true <->
                exists parsed, newURL url = Some parsed /\
                  isYouTubeHost (Js.toLowerCase (hostname parsed)) = true).
  { unfold isYouTubeUrl. destruct (newURL url) as [u|].
    - split; [intros H; exists u; auto|].
      intros (u' & Hu & H). injection Hu as <-. exact H.
    - split; [discriminate|]. intros (u' & Hu & _). discriminate. }
  split; [|split; [|split; [|split; [|split]]]].
  - destruct preferredTarget; [intros H; contradiction| |]; reflexivity.
  - rewrite <- Hyt. unfold resolveExternalRouteTarget.
    destruct (isYouTubeUrl url); split; congruence.
  - rewrite <- Hyt. unfold resolveExternalRouteTarget.
    destruct (isYouTubeUrl url); split; congruence.
  - intros parsed Hp Hh. unfold resolveExternalRouteTarget, isYouTubeUrl.
    rewrite Hp, (isYouTubeHost_lower _ Hh), Hh. reflexivity.
  - intros H. unfold resolveExternalRouteTarget, isYouTubeUrl. rewrite H. reflexivity.
  - destruct preferredTarget; simpl; try discriminate.
    destruct (isYouTubeUrl url); discriminate.
Qed.


(** ** Normalisation *)

Lemma params_has_filter (name other : string) (l : list (string * string)) :
  name <> other ->
  params_has name (filter (fun kv => negb (String.eqb (fst kv) other)) l) =
  params_has name l.
Proof.
  intros Hne. unfold params_has.
  induction l as [|[k v] l IH]; [reflexivity|].
  cbn [filter fst]. destruct (String.eqb k other) eqn:Ek; cbn [negb existsb fst].
  - apply String.eqb_eq in Ek. subst k.
    assert (String.eqb other name = false) as -> by (apply String.eqb_neq; congruence).
    exact IH.
  - rewrite IH. reflexivity.
Qed.

Context {laws : URLSearchParamsLaws P}.

Lemma normalizedURL_idem (parsed : URL) :
  normalizedURL (normalizedURL parsed) = normalizedURL parsed.
Proof.
  unfold normalizedURL at 2 3.
  destruct (isYouTubeHost (Js.toLowerCase (hostname parsed))) eqn:Eh.
  - destruct (params_has "v" (searchParams parsed) ||
              String.eqb (Js.toLowerCase (hostname parsed)) "youtu.be") eqn:Ev.
    + unfold normalizedURL.
      rewrite !delete_hostname, !delete_searchParams, Eh.
      rewrite !params_has_filter by discriminate.
      rewrite Ev.
      rewrite (delete_commutes "list" "index"), !delete_idempotent.
      reflexivity.
    + unfold normalizedURL. rewrite Eh, Ev. reflexivity.
  - unfold normalizedURL. rewrite Eh. reflexivity.
Qed.

Context {roundTrip : URLRoundTrip P}.

Lemma normalizedURL_reachable (input : string) (parsed : URL) :
  newURL input = Some parsed -> Reachable (normalizedURL parsed).
Proof.
  intros H. pose proof (Reachable_new input parsed H) as Hr.
  unfold normalizedURL.
  destruct (isYouTubeHost _); [|exact Hr].
  destruct (_ || _); [|exact Hr].
  apply Reachable_delete, Reachable_delete, Hr.
Qed.

Lemma round_trip_reparses (u : string) : Reparses u.
Proof.
  intros parsed H. apply round_trip. exact (normalizedURL_reachable u parsed H).
Qed.

Lemma normalize_twice (u : string) :
  normalizeExternalVideoUrl (normalizeExternalVideoUrl u) = normalizeExternalVideoUrl u.
Proof.
  unfold normalizeExternalVideoUrl at 2 3.
  destruct (newURL u) as [parsed|] eqn:E.
  - unfold normalizeExternalVideoUrl. rewrite (round_trip_reparses u parsed E).
    rewrite normalizedURL_idem. reflexivity.
  - unfold normalizeExternalVideoUrl. rewrite E. reflexivity.
Qed.

Lemma normalize_request (raw : string) (r : ExternalLinkRequest) :
  parseExternalDeepLink isSafeUrl raw = Some r ->
  normalizeExternalVideoUrl (url r) = url r.
Proof.
  intros H. apply parseExternalDeepLink_inv in H as (parsed & urlParam & _ & ->).
  cbn [url request]. apply normalize_twice.
Qed.

End ExternalLinkFacts.

(** ** The reference instance *)

#[local] Existing Instance WebURL.platform.

Lemma filter_idem {A : Type} (f : A -> bool) (l : list A) :
  filter f (filter f l) = filter f l.
Proof.
  induction l as [|x l IH]; [reflexivity|].
  simpl. destruct (f x) eqn:E; simpl; rewrite ?E, IH; reflexivity.
Qed.

Lemma filter_comm {A : Type} (f g : A -> bool) (l : list A) :
  filter f (filter g l) = filter g (filter f l).
Proof.
  induction l as [|x l IH]; [reflexivity|].
  simpl. destruct (f x) eqn:Ef; destruct (g x) eqn:Eg; simpl;
    rewrite ?Ef, ?Eg, IH; reflexivity.
Qed.

Lemma WebURL_laws : URLSearchParamsLaws WebURL.platform.
Proof.
  split.
  - reflexivity.
  - reflexivity.
  - intros name u. unfold searchParams_delete, WebURL.platform, WebURL.delete.
    cbn [WebURL.scheme WebURL.host WebURL.path WebURL.fragment WebURL.params].
    rewrite filter_idem. reflexivity.
  - intros a b u. unfold searchParams_delete, WebURL.platform, WebURL.delete.
    cbn [WebURL.scheme WebURL.host WebURL.path WebURL.fragment WebURL.params].
    rewrite (filter_comm _ (fun kv => negb (String.eqb (fst kv) b))). reflexivity.
Qed.

Lemma parsed_url_is_public_witness :
  WebURL.parseLink WebURL.exampleLink = Some WebURL.exampleRequest /\
  (isPublicHttpUrl "https://youtube.com/watch?v=abc123" = true /\
   exists parsed,
     newURL "https://youtube.com/watch?v=abc123" = Some parsed /\
     (protocol parsed = "http:" \/ protocol parsed = "https:") /\
     isPrivateOrLocalHost (hostname parsed) = false).
Proof.
  split; [vm_compute; reflexivity|].
  apply (parsed_url_is_public WebURL.isSafeUrl WebURL.exampleLink WebURL.exampleRequest).
  vm_compute. reflexivity.
Defined.

Lemma rejected_links_witness :
  WebURL.parseLink "" = None /\
  WebURL.parseLink ("youwee://download?v=1&url=https://example.com/" ++ Js.repeat "a" 4096) = None /\
  WebURL.parseLink "download v=1" = None /\
  WebURL.parseLink "https://download?v=1&url=https://example.com/" = None /\
  WebURL.parseLink "youwee://Download?v=1&url=https://example.com/" = None /\
  WebURL.parseLink "youwee://download?v=2&url=https://example.com/" = None /\
  WebURL.parseLink "youwee://download?url=https://example.com/" = None.
Proof.
  repeat apply conj; apply (rejected_links WebURL.isSafeUrl).
  - left. reflexivity.
  - right; left. apply Nat.ltb_lt. vm_compute. reflexivity.
  - right; right; left. vm_compute. reflexivity.
  - right; right; right. eexists. split; [vm_compute; reflexivity|].
    left. vm_compute. discriminate.
  - right; right; right. eexists. split; [vm_compute; reflexivity|].
    right; left. vm_compute. discriminate.
  - right; right; right. eexists. split; [vm_compute; reflexivity|].
    right; right. vm_compute. discriminate.
  - right; right; right. eexists. split; [vm_compute; reflexivity|].
    right; right. vm_compute. discriminate.
Defined.

Lemma resolved_route_witness :
  targetOfRoute (resolveExternalRouteTarget TargetUniversal "https://youtu.be/abc")
    = TargetUniversal /\
  resolveExternalRouteTarget TargetAuto "https://M.YouTube.com/watch?v=abc" = RouteYoutube /\
  resolveExternalRouteTarget TargetAuto "https://example.com/watch?v=abc" = RouteUniversal /\
  resolveExternalRouteTarget TargetAuto "no url" = RouteUniversal.
Proof.
  split; [|split; [|split]].
  - apply (proj1 (resolved_route TargetUniversal "https://youtu.be/abc")).
    discriminate.
  - apply (proj1 (proj2 (resolved_route TargetAuto "https://M.YouTube.com/watch?v=abc"))).
    eexists. split; vm_compute; reflexivity.
  - apply (proj1 (proj2 (proj2 (resolved_route TargetAuto "https://example.com/watch?v=abc")))).
    intros (parsed & Hp & Hh). vm_compute in Hp. injection Hp as <-.
    vm_compute in Hh. discriminate.
  - apply (proj1 (proj2 (proj2 (proj2 (proj2 (resolved_route TargetAuto "no url")))))).
    vm_compute. reflexivity.
Defined.


(** *** Splitting, and classes of characters *)

Lemma toLowerChar_idem (c : ascii) : Js.toLowerChar (Js.toLowerChar c) = Js.toLowerChar c.
Proof. split_char c. Qed.

Lemma toLowerCase_idem (s : string) : Js.toLowerCase (Js.toLowerCase s) = Js.toLowerCase s.
Proof.
  induction s as [|c s IH]; simpl; [reflexivity|].
  rewrite toLowerChar_idem, IH. reflexivity.
Qed.

Lemma every_app (p : ascii -> bool) (a b : string) :
  Js.every p (a ++ b) = Js.every p a && Js.every p b.
Proof.
  induction a as [|c a IH]; [reflexivity|]. simpl. rewrite IH. apply andb_assoc.
Qed.

Lemma every_impl (p q : ascii -> bool) (s : string) :
  (forall c, p c = true -> q c = true) -> Js.every p s = true -> Js.every q s = true.
Proof.
  intros Hpq. induction s as [|c s IH]; [reflexivity|]. simpl.
  intros H. apply andb_true_iff in H as [Hc Hs].
  rewrite (Hpq c Hc), (IH Hs). reflexivity.
Qed.

Lemma every_lower (p : ascii -> bool) (s : string) :
  (forall c, p c = true -> p (Js.toLowerChar c) = true) ->
  Js.every p s = true -> Js.every p (Js.toLowerCase s) = true.
Proof.
  intros Hp. induction s as [|c s IH]; [reflexivity|]. simpl.
  intros H. apply andb_true_iff in H as [Hc Hs].
  rewrite (Hp c Hc), (IH Hs). reflexivity.
Qed.

Lemma breakAt_app (p : ascii -> bool) (s : string) :
  s = fst (WebURL.breakAt p s) ++ snd (WebURL.breakAt p s).
Proof.
  induction s as [|c s IH]; [reflexivity|]. simpl.
  destruct (p c); [reflexivity|].
  destruct (WebURL.breakAt p s) as [a b]. simpl in *. rewrite <- IH. reflexivity.
Qed.

Lemma breakAt_free (p : ascii -> bool) (s : string) :
  free p (fst (WebURL.breakAt p s)).
Proof.
  unfold free. induction s as [|c s IH]; [reflexivity|]. simpl.
  destruct (p c) eqn:E; [reflexivity|].
  destruct (WebURL.breakAt p s) as [a b]. simpl in *. rewrite E, IH. reflexivity.
Qed.

Lemma breakAt_stops (p : ascii -> bool) (s : string) :
  stops p (snd (WebURL.breakAt p s)).
Proof.
  induction s as [|c s IH]; [exact I|]. simpl.
  destruct (p c) eqn:E; [exact E|].
  destruct (WebURL.breakAt p s) as [a b]. exact IH.
Qed.

Lemma breakAt_unique (p : ascii -> bool) (a b : string) :
  free p a -> stops p b -> WebURL.breakAt p (a ++ b) = (a, b).
Proof.
  unfold free. intros Ha Hb. induction a as [|c a IH].
  - destruct b as [|d b]; [reflexivity|]. simpl in *. rewrite Hb. reflexivity.
  - simpl in *. apply andb_true_iff in Ha as [Hc Ha].
    apply negb_true_iff in Hc. rewrite Hc, (IH Ha). reflexivity.
Qed.

Lemma schemeChar_plain (c : ascii) : WebURL.schemeChar c = true -> WebURL.plainChar c = true.
Proof. split_char c; intros H; discriminate H. Qed.

Lemma hostChar_plain (c : ascii) : WebURL.hostChar c = true -> WebURL.plainChar c = true.
Proof. split_char c; intros H; discriminate H. Qed.

Lemma schemeChar_colon (c : ascii) :
  WebURL.schemeChar c = true -> negb (Ascii.eqb ":" c) = true.
Proof. split_char c; intros H; discriminate H. Qed.

Lemma hostChar_delimiter (c : ascii) :
  WebURL.hostChar c = true -> negb (WebURL.oneOf "/?#" c) = true.
Proof. split_char c; intros H; discriminate H. Qed.

Lemma schemeChar_lower (c : ascii) :
  WebURL.schemeChar c = true -> WebURL.schemeChar (Js.toLowerChar c) = true.
Proof. split_char c; intros H; discriminate H. Qed.

Lemma hostChar_lower (c : ascii) :
  WebURL.hostChar c = true -> WebURL.hostChar (Js.toLowerChar c) = true.
Proof. split_char c; intros H; discriminate H. Qed.

Lemma isAlpha_lower (c : ascii) :
  WebURL.isAlpha c = true -> WebURL.isAlpha (Js.toLowerChar c) = true.
Proof. split_char c; intros H; discriminate H. Qed.

Lemma stops_weaken (p q : ascii -> bool) (s : string) :
  (forall c, p c = true -> q c = true) -> stops p s -> stops q s.
Proof. intros H. destruct s; [auto|apply H]. Qed.

Lemma serialize_parse (u : WebURL.t) :
  WellFormed u -> WebURL.parse (WebURL.serialize u) = Some u.
Proof.
  intros [Halpha Hsch Hlow Hkept Hhost Hspecial Hplain Hfree Hstart Hdots Hesc Hq Hf _].
  destruct u as [sch host path query fragment params].
  unfold isSpecial in *.
  cbn [WebURL.scheme WebURL.host WebURL.path WebURL.query WebURL.fragment WebURL.params] in *.
  unfold WebURL.parse, WebURL.serialize.
  cbn [WebURL.scheme WebURL.host WebURL.path WebURL.query WebURL.fragment WebURL.params].
  set (Q := match query with Some q => "?" ++ q | None => "" end).
  set (F := match fragment with Some f => "#" ++ f | None => "" end).
  assert (HQ : Js.every WebURL.plainChar Q = true).
  { subst Q. destruct query as [q|]; [|reflexivity]. apply Hq. }
  assert (HF : Js.every WebURL.plainChar F = true).
  { subst F. destruct fragment as [f|]; [|reflexivity]. exact Hf. }
  assert (HFstop : stops (Ascii.eqb "#") F).
  { subst F. destruct fragment; reflexivity. }
  assert (HQFstop : stops (WebURL.oneOf "?#") (Q ++ F)).
  { subst Q. destruct query as [q|]; [reflexivity|].
    cbn [append]. revert HFstop. apply stops_weaken. intros c Hc.
    apply Ascii.eqb_eq in Hc. subst c. reflexivity. }
  assert (HPQFstop : stops (WebURL.oneOf "/?#") (path ++ Q ++ F)).
  { destruct path as [|c path']; [|subst c; reflexivity].
    cbn [append]. revert HQFstop. apply stops_weaken. intros c.
    split_char c; intros H; discriminate H. }
  assert (Hall : Js.every WebURL.plainChar (sch ++ "://" ++ host ++ path ++ Q ++ F) = true).
  { rewrite !every_app, (every_impl _ _ _ schemeChar_plain Hsch),
      (every_impl _ _ _ hostChar_plain Hhost), Hplain, HQ, HF. reflexivity. }
  rewrite Hall. cbn [negb].
  rewrite (breakAt_unique (Ascii.eqb ":") sch ("://" ++ host ++ path ++ Q ++ F));
    [|exact (every_impl _ _ _ schemeChar_colon Hsch)|reflexivity].
  destruct sch as [|c0 sch']; [contradiction|].
  set (sch := String c0 sch') in *.
  cbn [append]. cbv beta iota.
  rewrite (breakAt_unique (WebURL.oneOf "/?#") host (path ++ Q ++ F));
    [|exact (every_impl _ _ _ hostChar_delimiter Hhost)|exact HPQFstop].
  cbv beta iota.
  rewrite (breakAt_unique (WebURL.oneOf "?#") path (Q ++ F)); [|exact Hfree|exact HQFstop].
  cbv beta iota.
  match goal with
  | |- (let '(_, _) := ?e in _) = _ => assert (Hqm : e = (query, F))
  end.
  { subst Q. destruct query as [q|].
    - cbn [append]. cbv beta iota.
      rewrite (breakAt_unique (Ascii.eqb "#") q F); [reflexivity|apply Hq|exact HFstop].
    - cbn [append]. subst F. destruct fragment; reflexivity. }
  rewrite Hqm. cbv beta iota. clear Hqm.
  rewrite Hlow.
  assert (Hfrag : match F with "" => None | String _ f => Some f end = fragment).
  { subst F. destruct fragment; reflexivity. }
  rewrite Hfrag.
  assert (Hpar : match query with Some q => WebURL.parseQuery q | None => [] end = params).
  { destruct query as [q|]; [symmetry; apply Hq|symmetry; exact Hq]. }
  rewrite Hpar.
  assert (Hhigh : WebURL.highEscape match query with Some q => q | None => "" end = false).
  { destruct query as [q|]; [apply Hq|reflexivity]. }
  rewrite Hhigh, Hdots, Hesc, Hhost, Hsch, Hkept.
  assert (Hc0 : WebURL.isAlpha c0 = true) by exact Halpha.
  rewrite Hc0. cbn [negb andb].
  destruct ((sch =? "http") || (sch =? "https")) eqn:Esp.
  - destruct (Hspecial eq_refl) as [Hhl Hdom]. rewrite Hhl, Hdom.
    destruct path as [|c path']; [discriminate Hstart|].
    reflexivity.
  - reflexivity.
Qed.

Lemma stops_query_or_fragment (s : string) :
  stops (WebURL.oneOf "?#") s ->
  s = "" \/ (exists r, s = String "?" r) \/ (exists r, s = String "#" r).
Proof.
  destruct s as [|d r]; [auto|]. cbn [stops]. intros H. right.
  revert H. split_char d; intros H; try discriminate H; eauto.
Qed.

Lemma stops_fragment (s : string) :
  stops (Ascii.eqb "#") s -> s = "" \/ exists r, s = String "#" r.
Proof.
  destruct s as [|d r]; [auto|]. cbn [stops]. intros H. right.
  apply Ascii.eqb_eq in H. subst d. eauto.
Qed.

Lemma plainChar_ascii (c : ascii) : WebURL.plainChar c = true -> isAsciiChar c = true.
Proof. split_char c; intros H; discriminate H. Qed.

Lemma slash_of_delimiters (c : ascii) :
  WebURL.oneOf "/?#" c = true -> negb (WebURL.oneOf "?#" c) = true -> c = "/"%char.
Proof. split_char c; intros H1 H2; try discriminate H1; discriminate H2. Qed.

(** *** Escapes *)

Lemma highEscape_app (a b : string) :
  WebURL.highEscape (a ++ b) = false ->
  WebURL.highEscape a = false /\ WebURL.highEscape b = false.
Proof.
  induction a as [|c a IH]; [auto|].
  cbn [append WebURL.highEscape]. intros H.
  apply orb_false_iff in H as [Hc Hr]. destruct (IH Hr) as [Ha Hb].
  split; [|exact Hb]. rewrite Ha, orb_false_r.
  destruct a as [|h a]; [reflexivity|exact Hc].
Qed.

Lemma plusToSpace_every (s : string) :
  Js.every isAsciiChar s = true -> Js.every isAsciiChar (WebURL.plusToSpace s) = true.
Proof.
  induction s as [|c s IH]; [reflexivity|]. simpl. intros H.
  apply andb_true_iff in H as [Hc Hs]. rewrite (IH Hs), andb_true_r.
  destruct (Ascii.eqb c "+"); [reflexivity|exact Hc].
Qed.

Lemma plusToSpace_highEscape (s : string) :
  WebURL.highEscape (WebURL.plusToSpace s) = WebURL.highEscape s.
Proof.
  induction s as [|c s IH]; [reflexivity|].
  cbn [WebURL.plusToSpace WebURL.highEscape]. rewrite IH. f_equal.
  destruct s as [|h s]; [reflexivity|]. cbn [WebURL.plusToSpace].
  assert (Hc : Ascii.eqb (if Ascii.eqb c "+" then " "%char else c) "%" = Ascii.eqb c "%").
  { destruct (Ascii.eqb c "+") eqn:E; [|reflexivity].
    apply Ascii.eqb_eq in E. subst c. reflexivity. }
  assert (Hh : WebURL.oneOf "89abcdefABCDEF" (if Ascii.eqb h "+" then " "%char else h) =
               WebURL.oneOf "89abcdefABCDEF" h).
  { destruct (Ascii.eqb h "+") eqn:E; [|reflexivity].
    apply Ascii.eqb_eq in E. subst h. reflexivity. }
  rewrite Hc, Hh. reflexivity.
Qed.

Lemma hexValue_bound (h : ascii) (x : N) : WebURL.hexValue h = Some x -> (x < 16)%N.
Proof. split_char h; intros H; try discriminate H; injection H as <-; reflexivity. Qed.

Lemma hexValue_low (h : ascii) (x : N) :
  WebURL.hexValue h = Some x -> WebURL.oneOf "89abcdefABCDEF" h = false -> (x < 8)%N.
Proof.
  split_char h; intros H Hs; try discriminate H; try discriminate Hs;
    injection H as <-; reflexivity.
Qed.

Lemma isAsciiChar_of_N (n : N) : (n < 128)%N -> isAsciiChar (ascii_of_N n) = true.
Proof.
  intros H. unfold isAsciiChar, Js.code.
  rewrite N_ascii_embedding by lia. apply N.ltb_lt, H.
Qed.

Lemma percentDecode_ascii_fuel (n : nat) (s : string) :
  (String.length s <= n)%nat ->
  Js.every isAsciiChar s = true -> WebURL.highEscape s = false ->
  Js.every isAsciiChar (WebURL.percentDecode s) = true.
Proof.
  revert s. induction n as [|n IH]; intros s Hn Hs Hh.
  - destruct s; [reflexivity|simpl in Hn; lia].
  - destruct s as [|c s]; [reflexivity|].
    cbn [String.length] in Hn.
    cbn [Js.every] in Hs. apply andb_true_iff in Hs as [Hc Hs].
    cbn [WebURL.highEscape] in Hh. apply orb_false_iff in Hh as [Hhc Hhs].
    assert (Hplain : Js.every isAsciiChar (String c (WebURL.percentDecode s)) = true).
    { cbn [Js.every]. rewrite Hc. apply IH; [lia|assumption|assumption]. }
    cbn [WebURL.percentDecode].
    destruct s as [|h [|l rest]]; try exact Hplain.
    destruct (WebURL.hexValue h) as [x|] eqn:Ex; [|exact Hplain].
    destruct (WebURL.hexValue l) as [y|] eqn:Ey; [|exact Hplain].
    destruct (Ascii.eqb c "%") eqn:Ec; [|exact Hplain].
    cbn [andb] in Hhc.
    pose proof (hexValue_low h x Ex Hhc). pose proof (hexValue_bound l y Ey).
    cbn [Js.every]. rewrite isAsciiChar_of_N by lia. cbn [andb].
    cbn [Js.every] in Hs. apply andb_true_iff in Hs as [_ Hs].
    apply andb_true_iff in Hs as [_ Hs].
    cbn [WebURL.highEscape] in Hhs. apply orb_false_iff in Hhs as [_ Hhs].
    apply orb_false_iff in Hhs as [_ Hhs].
    apply IH; [cbn [String.length] in Hn; lia|assumption|assumption].
Qed.

Lemma decode_ascii (s : string) :
  Js.every isAsciiChar s = true -> WebURL.highEscape s = false ->
  Js.every isAsciiChar (WebURL.percentDecode (WebURL.plusToSpace s)) = true.
Proof.
  intros Hs Hh. apply (percentDecode_ascii_fuel _ _ (le_n _)).
  - apply plusToSpace_every, Hs.
  - rewrite plusToSpace_highEscape. exact Hh.
Qed.

Lemma splitOn_head (sep : ascii) (s : string) :
  exists h t post, WebURL.splitOn sep s = h :: t /\ s = h ++ post.
Proof.
  induction s as [|c s (h & t & post & E & Hs)].
  - exists "", [], "". split; reflexivity.
  - cbn [WebURL.splitOn]. destruct (Ascii.eqb c sep).
    + exists "", (WebURL.splitOn sep s), (String c s). split; reflexivity.
    + rewrite E. exists (String c h), t, post. split; [reflexivity|].
      cbn [append]. rewrite <- Hs. reflexivity.
Qed.

Lemma splitOn_substring (sep : ascii) (s p : string) :
  In p (WebURL.splitOn sep s) -> exists pre post, s = pre ++ p ++ post.
Proof.
  revert p. induction s as [|c s IH]; intros p.
  - intros [<-|[]]. exists "", "". reflexivity.
  - cbn [WebURL.splitOn]. destruct (Ascii.eqb c sep).
    + intros [<-|Hin].
      * exists "", (String c s). reflexivity.
      * destruct (IH p Hin) as (pre & post & ->). exists (String c pre), post. reflexivity.
    + destruct (splitOn_head sep s) as (h & t & post & E & Hs). rewrite E in *.
      intros [<-|Hin].
      * exists "", post. cbn [append]. rewrite <- Hs. reflexivity.
      * destruct (IH p (or_intror Hin)) as (pre & post' & ->).
        exists (String c pre), post'. reflexivity.
Qed.

Lemma lowEscapes_app (a b : string) : lowEscapes (a ++ b) -> lowEscapes a /\ lowEscapes b.
Proof.
  unfold lowEscapes. rewrite every_app. intros [He Hh].
  apply andb_true_iff in He as [Ha Hb]. apply highEscape_app in Hh as [Hha Hhb]. auto.
Qed.

Lemma parseQuery_ascii (q : string) : lowEscapes q -> Forall asciiPair (WebURL.parseQuery q).
Proof.
  intros Hq. unfold WebURL.parseQuery. apply Forall_forall. intros kv Hin.
  apply in_flat_map in Hin as (piece & Hp & Hin).
  apply splitOn_substring in Hp as (pre & post & ->).
  apply lowEscapes_app in Hq as [_ Hq]. apply lowEscapes_app in Hq as [Hq _].
  destruct piece as [|c piece]; [destruct Hin|].
  set (p := String c piece) in *.
  pose proof (breakAt_app (Ascii.eqb "=") p) as Happ.
  destruct (WebURL.breakAt (Ascii.eqb "=") p) as [name rest]. cbn [fst snd] in Happ.
  destruct Hin as [<-|[]].
  rewrite Happ in Hq. apply lowEscapes_app in Hq as [Hn Hr].
  split; cbn [fst snd].
  - apply decode_ascii; apply Hn.
  - destruct rest as [|d v]; [reflexivity|].
    change (String d v) with (String d "" ++ v) in Hr.
    apply lowEscapes_app in Hr as [_ Hv]. apply decode_ascii; apply Hv.
Qed.

Lemma parse_wellFormed (input : string) (u : WebURL.t) :
  WebURL.parse input = Some u -> WellFormed u.
Proof.
  unfold WebURL.parse.
  destruct (Js.every WebURL.plainChar input) eqn:Hall; [|discriminate].
  cbn [negb].
  pose proof (breakAt_app (Ascii.eqb ":") input) as Happ1.
  destruct (WebURL.breakAt (Ascii.eqb ":") input) as [sch rest].
  cbn [fst snd] in *.
  destruct sch as [|c0 sch']; [discriminate|].
  intros H.
  destruct rest as [|c1 rest]; [discriminate H|].
  destruct rest as [|c2 rest]; [discriminate H|].
  destruct c2 as [b0 b1 b2 b3 b4 b5 b6 b7].
  repeat match type of H with
         | match ?b with true => _ | false => _ end = Some _ =>
             destruct b; try discriminate H
         end.
  destruct rest as [|c3 rest2]; [discriminate H|].
  destruct c3 as [b0 b1 b2 b3 b4 b5 b6 b7].
  repeat match type of H with
         | match ?b with true => _ | false => _ end = Some _ =>
             destruct b; try discriminate H
         end.
  change (Ascii true true true true false true false false) with "/"%char in *.
  remember (String c0 sch') as sch eqn:Esch.
  rewrite Happ1, every_app in Hall. apply andb_true_iff in Hall as [_ Hall].
  cbn [Js.every] in Hall. apply andb_true_iff in Hall as [_ Hall].
  cbn [andb WebURL.plainChar] in Hall. clear Happ1 input.
  change (Js.every WebURL.plainChar rest2 = true) in Hall.
  pose proof (breakAt_app (WebURL.oneOf "/?#") rest2) as Happ2.
  pose proof (breakAt_stops (WebURL.oneOf "/?#") rest2) as Hstop2.
  destruct (WebURL.breakAt (WebURL.oneOf "/?#") rest2) as [authority rest3].
  cbn [fst snd] in *.
  rewrite Happ2, every_app in Hall. apply andb_true_iff in Hall as [_ Hall].
  clear Happ2 rest2.
  pose proof (breakAt_app (WebURL.oneOf "?#") rest3) as Happ3.
  pose proof (breakAt_free (WebURL.oneOf "?#") rest3) as Hfree3.
  pose proof (breakAt_stops (WebURL.oneOf "?#") rest3) as Hstop3.
  destruct (WebURL.breakAt (WebURL.oneOf "?#") rest3) as [path0 rest4].
  cbn [fst snd] in *.
  rewrite Happ3, every_app in Hall. apply andb_true_iff in Hall as [Hpath Hall].
  assert (Hstart : match path0 with "" => True | String c _ => c = "/"%char end).
  { destruct path0 as [|c path0']; [exact I|].
    rewrite Happ3 in Hstop2. cbn [append stops] in Hstop2.
    unfold free in Hfree3. cbn [Js.every] in Hfree3.
    apply andb_true_iff in Hfree3 as [Hc _].
    exact (slash_of_delimiters c Hstop2 Hc). }
  clear Happ3 Hstop2 rest3.
  match type of H with
  | (let '(_, _) := ?e in _) = _ =>
      assert (Hq : exists query rest5,
                e = (query, rest5) /\
                match query with
                | Some q => Js.every WebURL.plainChar q = true /\ free (Ascii.eqb "#") q
                | None => True
                end /\
                match rest5 with
                | "" => True
                | String _ f => Js.every WebURL.plainChar f = true
                end)
  end.
  { destruct (stops_query_or_fragment rest4 Hstop3) as [->|[[r ->]|[r ->]]].
    - exists None, "". auto.
    - cbv beta iota.
      cbn [Js.every] in Hall. apply andb_true_iff in Hall as [_ Hall].
      pose proof (breakAt_app (Ascii.eqb "#") r) as Happ.
      pose proof (breakAt_free (Ascii.eqb "#") r) as Hfree.
      pose proof (breakAt_stops (Ascii.eqb "#") r) as Hstop.
      destruct (WebURL.breakAt (Ascii.eqb "#") r) as [q r']. cbn [fst snd] in *.
      rewrite Happ, every_app in Hall. apply andb_true_iff in Hall as [Hq Hr].
      exists (Some q), r'. split; [reflexivity|]. split; [auto|].
      destruct r' as [|d f]; [exact I|].
      cbn [Js.every] in Hr. apply andb_true_iff in Hr as [_ Hr]. exact Hr.
    - exists None, (String "#" r). split; [reflexivity|]. split; [exact I|].
      cbn [Js.every] in Hall. apply andb_true_iff in Hall as [_ Hall]. exact Hall. }
  destruct Hq as (query & rest5 & E & Hqp & Hfp). rewrite E in H. cbv beta iota in H.
  clear E Hall Hstop3 rest4.
  match type of H with
  | (if ?checks then _ else _) = _ => destruct checks eqn:Hc; [|discriminate H]
  end.
  injection H as <-.
  apply andb_true_iff in Hc as [Hc Hc0]. apply andb_true_iff in Hc as [Hc Hc1].
  apply andb_true_iff in Hc as [Hc Hc2]. apply andb_true_iff in Hc as [Hc Hc3].
  apply andb_true_iff in Hc as [Hc Hc4]. apply andb_true_iff in Hc as [Hc Hc5].
  apply andb_true_iff in Hc as [Hc Hc6].
  apply negb_true_iff in Hc5, Hc2, Hc1, Hc0.
  set (scheme := Js.toLowerCase sch) in *.
  constructor; unfold isSpecial;
    cbn [WebURL.scheme WebURL.host WebURL.path WebURL.query WebURL.fragment WebURL.params];
    set (special := (scheme =? "http") || (scheme =? "https")) in *.
  - subst scheme sch. cbn [Js.toLowerCase]. apply isAlpha_lower, Hc.
  - apply every_lower; [apply schemeChar_lower|exact Hc6].
  - apply toLowerCase_idem.
  - exact Hc5.
  - destruct special; [apply every_lower; [apply hostChar_lower|]|]; exact Hc4.
  - intros Hsp. rewrite Hsp in *. split; [apply toLowerCase_idem|exact Hc3].
  - destruct (special && (path0 =? "")); [reflexivity|exact Hpath].
  - destruct (special && (path0 =? "")); [reflexivity|exact Hfree3].
  - destruct special; destruct path0 as [|c p]; cbn [andb String.eqb]; auto.
  - destruct (special && (path0 =? "")); [reflexivity|exact Hc2].
  - destruct (special && (path0 =? "")); [reflexivity|exact Hc1].
  - destruct query as [q|]; [|reflexivity]. destruct Hqp. auto.
  - destruct rest5; [exact I|exact Hfp].
  - destruct query as [q|]; [|constructor]. apply parseQuery_ascii.
    split; [|exact Hc0]. exact (every_impl _ _ _ plainChar_ascii (proj1 Hqp)).
Qed.

(** *** The serialiser of search parameters *)

Lemma serializeChar_written (c : ascii) :
  Js.every writtenChar (WebURL.serializeChar c) = true.
Proof. split_char c. Qed.

Lemma serializeString_written (s : string) :
  Js.every writtenChar (WebURL.serializeString s) = true.
Proof.
  induction s as [|c s IH]; [reflexivity|].
  cbn [WebURL.serializeString]. rewrite every_app, serializeChar_written, IH. reflexivity.
Qed.

Lemma writtenChar_plain (c : ascii) : writtenChar c = true -> WebURL.plainChar c = true.
Proof. split_char c; intros H; discriminate H. Qed.

Lemma writtenChar_fragment (c : ascii) : writtenChar c = true -> negb (Ascii.eqb "#" c) = true.
Proof. split_char c; intros H; discriminate H. Qed.

Lemma writtenChar_equals (c : ascii) : writtenChar c = true -> negb (Ascii.eqb "=" c) = true.
Proof. split_char c; intros H; discriminate H. Qed.

Lemma writtenChar_ampersand (c : ascii) : writtenChar c = true -> negb (Ascii.eqb c "&") = true.
Proof. split_char c; intros H; discriminate H. Qed.

Lemma highEscape_serializeChar (c : ascii) (rest : string) :
  isAsciiChar c = true ->
  WebURL.highEscape (WebURL.serializeChar c ++ rest) = WebURL.highEscape rest.
Proof.
  split_char c; intros H; try discriminate H; destruct rest; reflexivity.
Qed.

Lemma append_assoc (a b c : string) : (a ++ b) ++ c = a ++ b ++ c.
Proof. induction a as [|x a IH]; [reflexivity|]. simpl. rewrite IH. reflexivity. Qed.

Lemma highEscape_serializeString (s rest : string) :
  Js.every isAsciiChar s = true ->
  WebURL.highEscape (WebURL.serializeString s ++ rest) = WebURL.highEscape rest.
Proof.
  induction s as [|c s IH]; [reflexivity|]. cbn [Js.every WebURL.serializeString].
  intros H. apply andb_true_iff in H as [Hc Hs].
  rewrite append_assoc, (highEscape_serializeChar c _ Hc). exact (IH Hs).
Qed.

Lemma highEscape_separator (c : ascii) (rest : string) :
  Ascii.eqb c "%" = false ->
  WebURL.highEscape (String c rest) = WebURL.highEscape rest.
Proof.
  intros H. cbn [WebURL.highEscape]. rewrite H. destruct rest; reflexivity.
Qed.

Lemma serializeQuery_cons (kv : string * string) (l : list (string * string)) :
  WebURL.serializeQuery (kv :: l) =
  match l with
  | [] => serializePair kv
  | _ => serializePair kv ++ String "&" (WebURL.serializeQuery l)
  end.
Proof.
  destruct kv as [k v]. unfold serializePair. cbn [WebURL.serializeQuery fst snd].
  destruct l; [reflexivity|]. rewrite !append_assoc. reflexivity.
Qed.

Lemma highEscape_serializePair (kv : string * string) (rest : string) :
  asciiPair kv ->
  WebURL.highEscape (serializePair kv ++ rest) = WebURL.highEscape rest.
Proof.
  intros [Hk Hv]. unfold serializePair.
  rewrite !append_assoc, (highEscape_serializeString _ _ Hk). cbn [append].
  rewrite highEscape_separator by reflexivity.
  apply highEscape_serializeString, Hv.
Qed.

Lemma highEscape_serializeQuery (l : list (string * string)) :
  Forall asciiPair l -> WebURL.highEscape (WebURL.serializeQuery l) = false.
Proof.
  induction l as [|kv l IH]; [reflexivity|]. intros H.
  inversion H as [|? ? Hkv Hl]; subst. rewrite serializeQuery_cons.
  destruct l as [|kv' l'].
  - rewrite <- (append_empty (serializePair kv)).
    rewrite (highEscape_serializePair kv "" Hkv). reflexivity.
  - rewrite (highEscape_serializePair kv _ Hkv).
    rewrite highEscape_separator by reflexivity. exact (IH Hl).
Qed.

Lemma serializePair_written (kv : string * string) :
  Js.every (fun c => writtenChar c || Ascii.eqb c "=") (serializePair kv) = true.
Proof.
  unfold serializePair. rewrite !every_app.
  rewrite !(every_impl writtenChar _ _ (fun c H => orb_true_intro _ _ (or_introl H))
              (serializeString_written _)).
  reflexivity.
Qed.

Lemma serializeQuery_written (l : list (string * string)) :
  Js.every (fun c => writtenChar c || Ascii.eqb c "=" || Ascii.eqb c "&")
    (WebURL.serializeQuery l) = true.
Proof.
  induction l as [|kv l IH]; [reflexivity|]. rewrite serializeQuery_cons.
  assert (Hp : Js.every (fun c => writtenChar c || Ascii.eqb c "=" || Ascii.eqb c "&")
                 (serializePair kv) = true).
  { apply (every_impl _ _ _ (fun c H => orb_true_intro _ _ (or_introl H))
             (serializePair_written kv)). }
  destruct l as [|kv' l']; [exact Hp|].
  rewrite every_app, Hp. cbn [Js.every andb]. exact IH.
Qed.

Lemma queryChar_plain (c : ascii) :
  writtenChar c || Ascii.eqb c "=" || Ascii.eqb c "&" = true -> WebURL.plainChar c = true.
Proof. split_char c; intros H; discriminate H. Qed.

Lemma queryChar_fragment (c : ascii) :
  writtenChar c || Ascii.eqb c "=" || Ascii.eqb c "&" = true ->
  negb (Ascii.eqb "#" c) = true.
Proof. split_char c; intros H; discriminate H. Qed.

(** *** Parsing what the serialiser wrote *)

Lemma plusToSpace_app (a b : string) :
  WebURL.plusToSpace (a ++ b) = WebURL.plusToSpace a ++ WebURL.plusToSpace b.
Proof. induction a as [|c a IH]; [reflexivity|]. simpl. rewrite IH. reflexivity. Qed.

Lemma percentDecode_plain (c : ascii) (s : string) :
  Ascii.eqb c "%" = false ->
  WebURL.percentDecode (String c s) = String c (WebURL.percentDecode s).
Proof.
  intros H. cbn [WebURL.percentDecode]. destruct s as [|h [|l rest]]; try reflexivity.
  destruct (WebURL.hexValue h); [|reflexivity]. destruct (WebURL.hexValue l); [|reflexivity].
  rewrite H. reflexivity.
Qed.

Lemma decode_serializeChar (c : ascii) (rest : string) :
  isAsciiChar c = true ->
  WebURL.percentDecode (WebURL.plusToSpace (WebURL.serializeChar c) ++ rest) =
  String c (WebURL.percentDecode rest).
Proof.
  split_char c; intros H; try discriminate H;
    try (apply percentDecode_plain; reflexivity).
Qed.

Lemma decode_serializeString (s : string) :
  Js.every isAsciiChar s = true ->
  WebURL.percentDecode (WebURL.plusToSpace (WebURL.serializeString s)) = s.
Proof.
  induction s as [|c s IH]; [reflexivity|]. cbn [Js.every WebURL.serializeString].
  intros H. apply andb_true_iff in H as [Hc Hs].
  rewrite plusToSpace_app, (decode_serializeChar c _ Hc), (IH Hs). reflexivity.
Qed.

Lemma splitOn_free (sep : ascii) (a : string) :
  free (fun c => Ascii.eqb c sep) a -> WebURL.splitOn sep a = [a].
Proof.
  unfold free. induction a as [|c a IH]; [reflexivity|]. cbn [Js.every WebURL.splitOn].
  intros H. apply andb_true_iff in H as [Hc Ha]. apply negb_true_iff in Hc.
  rewrite Hc, (IH Ha). reflexivity.
Qed.

Lemma splitOn_separator (sep : ascii) (a b : string) :
  free (fun c => Ascii.eqb c sep) a ->
  WebURL.splitOn sep (a ++ String sep b) = a :: WebURL.splitOn sep b.
Proof.
  unfold free. induction a as [|c a IH].
  - intros _. cbn [append WebURL.splitOn]. rewrite Ascii.eqb_refl. reflexivity.
  - cbn [Js.every append WebURL.splitOn].
    intros H. apply andb_true_iff in H as [Hc Ha]. apply negb_true_iff in Hc.
    rewrite Hc, (IH Ha). reflexivity.
Qed.

Lemma pairChar_ampersand (c : ascii) :
  writtenChar c || Ascii.eqb c "=" = true -> negb (Ascii.eqb c "&") = true.
Proof. split_char c; intros H; discriminate H. Qed.

Lemma serializePair_ampersand (kv : string * string) :
  free (fun c => Ascii.eqb c "&") (serializePair kv).
Proof. exact (every_impl _ _ _ pairChar_ampersand (serializePair_written kv)). Qed.

Lemma parseQuery_pieces (q : string) :
  WebURL.parseQuery q = flat_map parsePiece (WebURL.splitOn "&" q).
Proof. reflexivity. Qed.

Lemma parsePiece_serializePair (kv : string * string) :
  asciiPair kv -> parsePiece (serializePair kv) = [kv].
Proof.
  destruct kv as [k v]. intros [Hk Hv]. cbn [fst snd] in *.
  unfold serializePair. cbn [fst snd].
  assert (Hb : WebURL.breakAt (Ascii.eqb "=")
                 (WebURL.serializeString k ++ "=" ++ WebURL.serializeString v) =
               (WebURL.serializeString k, String "=" (WebURL.serializeString v))).
  { apply breakAt_unique; [|reflexivity].
    exact (every_impl _ _ _ writtenChar_equals (serializeString_written k)). }
  unfold parsePiece. rewrite Hb.
  rewrite (decode_serializeString k Hk), (decode_serializeString v Hv).
  destruct (WebURL.serializeString k ++ "=" ++ WebURL.serializeString v) eqn:E;
    [|reflexivity].
  destruct (WebURL.serializeString k); discriminate E.
Qed.

Lemma parseQuery_serializeQuery (l : list (string * string)) :
  Forall asciiPair l -> WebURL.parseQuery (WebURL.serializeQuery l) = l.
Proof.
  rewrite parseQuery_pieces.
  induction l as [|kv l IH]; [reflexivity|]. intros H.
  inversion H as [|? ? Hkv Hl]; subst. rewrite serializeQuery_cons.
  destruct l as [|kv' l'].
  - rewrite (splitOn_free _ _ (serializePair_ampersand kv)).
    cbn [flat_map]. rewrite (parsePiece_serializePair kv Hkv). reflexivity.
  - rewrite (splitOn_separator _ _ _ (serializePair_ampersand kv)).
    cbn [flat_map]. rewrite (parsePiece_serializePair kv Hkv), (IH Hl). reflexivity.
Qed.

Lemma serializeQuery_empty (l : list (string * string)) :
  WebURL.serializeQuery l = "" -> l = [].
Proof.
  destruct l as [|kv l]; [reflexivity|]. rewrite serializeQuery_cons.
  unfold serializePair. intros H. exfalso.
  destruct (WebURL.serializeString (fst kv)); destruct l; discriminate H.
Qed.

Lemma delete_wellFormed (name : string) (u : WebURL.t) :
  WellFormed u -> WellFormed (WebURL.delete name u).
Proof.
  intros [Halpha Hsch Hlow Hkept Hhost Hspecial Hplain Hfree Hstart Hdots Hesc Hq Hf Hpar].
  set (l := filter (fun kv => negb (String.eqb (fst kv) name)) (WebURL.params u)).
  assert (Hl : Forall asciiPair l).
  { apply Forall_forall. intros kv Hin. apply filter_In in Hin as [Hin _].
    exact (proj1 (Forall_forall _ _) Hpar kv Hin). }
  constructor; unfold isSpecial, WebURL.delete in *;
    cbn [WebURL.scheme WebURL.host WebURL.path WebURL.query WebURL.fragment WebURL.params];
    try assumption; fold l.
  destruct (String.eqb (WebURL.serializeQuery l) "") eqn:E.
  - apply String.eqb_eq in E. exact (serializeQuery_empty l E).
  - split; [exact (every_impl _ _ _ queryChar_plain (serializeQuery_written l))|].
    split; [exact (every_impl _ _ _ queryChar_fragment (serializeQuery_written l))|].
    split; [exact (highEscape_serializeQuery l Hl)|].
    symmetry. exact (parseQuery_serializeQuery l Hl).
Qed.

(** *** The round trip of the reference instance *)

Lemma WebURL_reachable_wellFormed (u : WebURL.t) :
  @Reachable WebURL.platform u -> WellFormed u.
Proof.
  induction 1 as [input parsed H|name u _ IH].
  - exact (parse_wellFormed input parsed H).
  - exact (delete_wellFormed name u IH).
Qed.

Lemma WebURL_round_trip : URLRoundTrip WebURL.platform.
Proof.
  split. intros u H. apply serialize_parse, WebURL_reachable_wellFormed, H.
Qed.



(** ** The testable properties of the specification *)

Example retryable_http_503 :
  isRetryableError "HTTP Error 503: Service Unavailable" = true /\
  isRetryableError "" = false.
Proof. split; vm_compute; reflexivity. Qed.

Example private_video_is_final :
  isNonRetryableError "Private video" = true /\
  isRetryableError "Private video" = false.
Proof. split; vm_compute; reflexivity. Qed.

Example unknown_message_is_not_retried :
  isNonRetryableError "disk quota exceeded" = false /\
  isRetryableError "disk quota exceeded" = false.
Proof. split; vm_compute; reflexivity. Qed.

Example word_boundaries :
  map isRetryableError
    ["error 503"; "error 1503"; "error 5033"; "code=429;"; "x429"; "Timed  out"; "TLS handshake"]
  = [true; false; false; true; false; true; true].
Proof. vm_compute. reflexivity. Qed.

Example fragment_failure :
  isRetryableError "fragment 12 of 40: download failed" = true /\
  isRetryableError ("fragment 12" ++ String "010" "download failed") = false.
Proof. split; vm_compute; reflexivity. Qed.

Example bracketed_hosts :
  map isPrivateOrLocalHost ["[::1]"; "[FE80::1]"; "[fd00::1]"; "[2001:db8::1]"; "172.15.0.1"; "172.32.0.1"]
  = [true; true; true; false; false; false].
Proof. vm_compute. reflexivity. Qed.

Example example_link_is_accepted :
  WebURL.parseLink WebURL.exampleLink = Some WebURL.exampleRequest /\
  WebURL.parseLink WebURL.audioLink = Some WebURL.audioRequest.
Proof. split; vm_compute; reflexivity. Qed.

Example private_target_is_rejected :
  WebURL.parseLink "youwee://download?v=1&url=http://192.168.1.5/video.mp4" = None.
Proof. vm_compute. reflexivity. Qed.

Example explicit_target_wins :
  option_map target
    (WebURL.parseLink "youwee://download?v=1&url=https://youtu.be/abc&target=universal&action=queue_only")
  = Some TargetUniversal /\
  resolveExternalRouteTarget TargetUniversal "https://youtu.be/abc" = RouteUniversal /\
  resolveExternalRouteTarget TargetAuto "https://youtu.be/abc" = RouteYoutube.
Proof. repeat apply conj; vm_compute; reflexivity. Qed.

(** * Further properties *)

(** ** Lower-casing and trimming *)

Lemma isWhiteSpace_lower (c : ascii) : Js.isWhiteSpace (Js.toLowerChar c) = Js.isWhiteSpace c.
Proof. split_char c. Qed.

Lemma toLowerCase_length (s : string) : String.length (Js.toLowerCase s) = String.length s.
Proof.
  induction s as [|c s IH]; simpl; [reflexivity|]. rewrite IH. reflexivity.
Qed.

Lemma trimStart_lower (s : string) :
  Js.trimStart (Js.toLowerCase s) = Js.toLowerCase (Js.trimStart s).
Proof.
  induction s as [|c s IH]; simpl; [reflexivity|].
  rewrite isWhiteSpace_lower. destruct (Js.isWhiteSpace c); [exact IH|reflexivity].
Qed.

Lemma trimEnd_lower (s : string) :
  Js.trimEnd (Js.toLowerCase s) = Js.toLowerCase (Js.trimEnd s).
Proof.
  induction s as [|c s IH]; [reflexivity|].
  cbn [Js.toLowerCase Js.trimEnd]. rewrite IH, isWhiteSpace_lower.
  destruct (Js.trimEnd s); [destruct (Js.isWhiteSpace c)|]; reflexivity.
Qed.

Lemma trim_lower (s : string) : Js.trim (Js.toLowerCase s) = Js.toLowerCase (Js.trim s).
Proof.
  unfold Js.trim. rewrite trimStart_lower, trimEnd_lower. reflexivity.
Qed.

(** ** Source tags *)

Lemma normalizeExternalSource_some (source : option string) (t : string) :
  normalizeExternalSource source = Some t ->
  In t TRUSTED_EXTERNAL_SOURCES /\
  exists s, source = Some s /\ t = Js.toLowerCase (Js.trim s).
Proof.
  destruct source as [s|]; [|discriminate]. unfold normalizeExternalSource.
  destruct (negb (Js.truthy _)); [discriminate|].
  destruct (set_has _ _) eqn:E; [|discriminate].
  intros H. injection H as <-. split; [apply set_has_In, E|].
  exists s. auto.
Qed.

Lemma trusted_fixed (t : string) :
  In t TRUSTED_EXTERNAL_SOURCES ->
  normalizeExternalSource (Some t) = Some t /\ isTrustedExternalSource (Some t) = true.
Proof.
  intros [<-|[<-|[]]]; split; reflexivity.
Qed.

(** X1.  [normalizeExternalSource] returns null or one of the two trusted
    tags, the trimmed and lower-cased input, and [isTrustedExternalSource]
    accepts whatever it returns that is not null; null comes out of a
    missing, a blank and an unlisted source. *)
Theorem normalizeExternalSource_trusted (source : option string) :
  (forall t, normalizeExternalSource source = Some t ->
     (t = "ext-chromium" \/ t = "ext-firefox") /\
     (exists s, source = Some s /\ t = Js.toLowerCase (Js.trim s)) /\
     isTrustedExternalSource (normalizeExternalSource source) = true) /\
  (normalizeExternalSource source = None <->
     source = None \/
     exists s, source = Some s /\
       ~ In (Js.toLowerCase (Js.trim s)) TRUSTED_EXTERNAL_SOURCES).
Proof.
  split.
  - intros t H. pose proof (normalizeExternalSource_some _ _ H) as [Hin Hs].
    split; [|split; [exact Hs|]].
    + destruct Hin as [<-|[<-|[]]]; auto.
    + rewrite H. apply trusted_fixed, Hin.
  - split.
    + intros H. destruct source as [s|]; [right|left; reflexivity].
      exists s. split; [reflexivity|]. intros Hin.
      unfold normalizeExternalSource in H.
      apply set_has_In in Hin as Hhas. rewrite Hhas in H.
      destruct (negb (Js.truthy _)) eqn:E; [|discriminate].
      apply negb_true_iff, truthy_false in E. rewrite E in Hin.
      destruct Hin as [Hin|[Hin|[]]]; discriminate.
    + intros [->|(s & -> & Hn)]; [reflexivity|].
      unfold normalizeExternalSource.
      destruct (negb (Js.truthy _)); [reflexivity|].
      destruct (set_has _ _) eqn:E; [|reflexivity].
      apply set_has_In in E. contradiction.
Qed.

Lemma normalizeExternalSource_trusted_witness :
  (normalizeExternalSource (Some "  EXT-Chromium ") = Some "ext-chromium" /\
   isTrustedExternalSource (normalizeExternalSource (Some "  EXT-Chromium ")) = true) /\
  normalizeExternalSource (Some "ext-safari") = None /\
  isTrustedExternalSource (Some "  EXT-Chromium ") = false.
Proof.
  split; [|split; [|reflexivity]].
  - split; [reflexivity|].
    apply (proj1 (normalizeExternalSource_trusted (Some "  EXT-Chromium ")) "ext-chromium").
    reflexivity.
  - apply (proj2 (normalizeExternalSource_trusted (Some "ext-safari"))).
    right. exists "ext-safari". split; [reflexivity|].
    simpl. intros [H|[H|[]]]; discriminate.
Defined.

(** X2.  [normalizeExternalSource] is idempotent, and the sources it
    leaves as they are are exactly those that [isTrustedExternalSource]
    accepts (the exact, case-sensitive tags). *)
Theorem normalizeExternalSource_idempotent (source : option string) :
  normalizeExternalSource (normalizeExternalSource source) = normalizeExternalSource source /\
  (isTrustedExternalSource source = true <->
     source <> None /\ normalizeExternalSource source = source).
Proof.
  split.
  - destruct (normalizeExternalSource source) as [t|] eqn:E; [|reflexivity].
    apply normalizeExternalSource_some in E as [Hin _].
    apply trusted_fixed, Hin.
  - split.
    + destruct source as [s|]; [|discriminate]. intros H.
      split; [discriminate|]. unfold isTrustedExternalSource in H.
      apply andb_true_iff in H as [_ H]. apply set_has_In in H.
      apply trusted_fixed, H.
    + intros [Hn H]. destruct source as [s|]; [|contradiction].
      apply normalizeExternalSource_some in H as [Hin _].
      apply trusted_fixed, Hin.
Qed.

Lemma normalizeExternalSource_idempotent_witness :
  normalizeExternalSource (Some "ext-firefox") = Some "ext-firefox" /\
  isTrustedExternalSource (Some "ext-firefox") = true.
Proof.
  split.
  - apply (proj1 (proj2 (normalizeExternalSource_idempotent (Some "ext-firefox")))).
    reflexivity.
  - apply (proj2 (proj2 (normalizeExternalSource_idempotent (Some "ext-firefox")))).
    split; [discriminate|reflexivity].
Defined.

(** ** Requests and normalisation *)

Section RequestFacts.

Context {P : URLPlatform}.
Variable isSafeUrl : string -> bool.

(** X3.  The fields of an accepted request: it echoes the link, whose
    length is at most 4096; its url is the normalised, trimmed [url]
    parameter; its target is youtube or universal exactly when the
    [target] parameter is that string and auto in every other case; its
    action is queue_only exactly when the [action] parameter is that
    string; and its source is null or a trusted tag. *)
Theorem request_fields (link : string) (r : ExternalLinkRequest) :
  parseExternalDeepLink isSafeUrl link = Some r ->
  exists parsed,
    newURL link = Some parsed /\
    raw r = link /\
    (String.length (raw r) <= 4096)%nat /\
    (exists u, params_get "url" (searchParams parsed) = Some u /\
               url r = normalizeExternalVideoUrl (Js.trim u)) /\
    (target r = TargetYoutube <->
       params_get "target" (searchParams parsed) = Some "youtube") /\
    (target r = TargetUniversal <->
       params_get "target" (searchParams parsed) = Some "universal") /\
    (action r = QueueOnly <->
       params_get "action" (searchParams parsed) = Some "queue_only") /\
    (source r = None \/ isTrustedExternalSource (source r) = true).
Proof.
  intros H. apply parseExternalDeepLink_inv in H as (parsed & urlParam & Hacc & ->).
  destruct Hacc as (_ & Hlen & Hn & _ & _ & _ & Hu & _).
  exists parsed. split; [exact Hn|]. split; [reflexivity|]. split; [exact Hlen|].
  split.
  { destruct (params_get "url" (searchParams parsed)) as [u|]; [|discriminate].
    injection Hu as <-. exists u. auto. }
  cbn [target action source request]. cbv zeta.
  set (t := params_get "target" (searchParams parsed)).
  set (a := params_get "action" (searchParams parsed)).
  split; [|split; [|split]].
  - destruct (strict_eq t "youtube") eqn:E.
    + apply strict_eq_true in E. split; auto.
    + apply strict_eq_false in E.
      destruct (strict_eq t "universal"); split; intros; congruence.
  - destruct (strict_eq t "youtube") eqn:E.
    + apply strict_eq_true in E. split; intros; congruence.
    + destruct (strict_eq t "universal") eqn:E2.
      * apply strict_eq_true in E2. split; auto.
      * apply strict_eq_false in E2. split; intros; congruence.
  - destruct (strict_eq a "queue_only") eqn:E.
    + apply strict_eq_true in E. split; auto.
    + apply strict_eq_false in E. split; intros; congruence.
  - destruct (normalizeExternalSource _) as [tag|] eqn:E; [right|left; reflexivity].
    apply normalizeExternalSource_some in E as [Hin _].
    apply trusted_fixed, Hin.
Qed.

Lemma params_get_filter (name other : string) (l : list (string * string)) :
  name <> other ->
  params_get name (filter (fun kv => negb (String.eqb (fst kv) other)) l) =
  params_get name l.
Proof.
  intros Hne. induction l as [|[k v] l IH]; [reflexivity|].
  cbn [filter fst]. destruct (String.eqb k other) eqn:Ek; cbn [negb params_get].
  - apply String.eqb_eq in Ek. subst k.
    assert (String.eqb other name = false) as -> by (apply String.eqb_neq; congruence).
    exact IH.
  - rewrite IH. reflexivity.
Qed.

Lemma params_has_filter_same (name : string) (l : list (string * string)) :
  params_has name (filter (fun kv => negb (String.eqb (fst kv) name)) l) = false.
Proof.
  unfold params_has. induction l as [|[k v] l IH]; [reflexivity|].
  cbn [filter fst]. destruct (String.eqb k name) eqn:Ek; cbn [negb existsb fst].
  - exact IH.
  - rewrite Ek, IH. reflexivity.
Qed.

Context {laws : URLSearchParamsLaws P}.

(** X4.  From the URL of a single video on a recognised host (a [v]
    parameter, or the host youtu.be) normalisation removes the [list] and
    [index] parameters and nothing else: every other parameter keeps its
    value and the host is unchanged.  Every other URL, a playlist URL
    without [v] included, is serialised with its parameters untouched,
    and a string that does not parse is returned as it is. *)
Theorem normalization_strips_playlist (u : string) :
  (forall parsed, newURL u = Some parsed ->
     isYouTubeHost (Js.toLowerCase (hostname parsed)) = true ->
     params_has "v" (searchParams parsed) = true \/
       Js.toLowerCase (hostname parsed) = "youtu.be" ->
     exists q,
       normalizeExternalVideoUrl u = toString q /\
       hostname q = hostname parsed /\
       params_has "list" (searchParams q) = false /\
       params_has "index" (searchParams q) = false /\
       (forall name, name <> "list" -> name <> "index" ->
          params_get name (searchParams q) = params_get name (searchParams parsed))) /\
  (forall parsed, newURL u = Some parsed ->
     isYouTubeHost (Js.toLowerCase (hostname parsed)) = false \/
       (params_has "v" (searchParams parsed) = false /\
        Js.toLowerCase (hostname parsed) <> "youtu.be") ->
     normalizeExternalVideoUrl u = toString parsed) /\
  (newURL u = None -> normalizeExternalVideoUrl u = u).
Proof.
  unfold normalizeExternalVideoUrl.
  split; [|split].
  - intros parsed Hp Hh Hv. rewrite Hp.
    exists (searchParams_delete "index" (searchParams_delete "list" parsed)).
    split.
    { unfold normalizedURL. rewrite Hh.
      assert (params_has "v" (searchParams parsed) ||
              String.eqb (Js.toLowerCase (hostname parsed)) "youtu.be" = true) as ->.
      { apply orb_true_iff. destruct Hv as [Hv|Hv]; [left; exact Hv|right].
        apply String.eqb_eq, Hv. }
      reflexivity. }
    rewrite !delete_hostname, !delete_searchParams.
    split; [reflexivity|]. split; [|split].
    + rewrite params_has_filter by discriminate. apply params_has_filter_same.
    + apply params_has_filter_same.
    + intros name Hl Hi. rewrite !params_get_filter by assumption. reflexivity.
  - intros parsed Hp Hcase. rewrite Hp. unfold normalizedURL.
    destruct Hcase as [Hh|[Hv Hh]].
    + rewrite Hh. reflexivity.
    + rewrite Hv. apply String.eqb_neq in Hh. rewrite Hh.
      destruct (isYouTubeHost _); reflexivity.
  - intros Hp. rewrite Hp. reflexivity.
Qed.

End RequestFacts.

Lemma request_fields_witness :
  exists parsed,
    newURL WebURL.audioLink = Some parsed /\
    raw WebURL.audioRequest = WebURL.audioLink /\
    (String.length (raw WebURL.audioRequest) <= 4096)%nat /\
    (exists u, params_get "url" (searchParams parsed) = Some u /\
               url WebURL.audioRequest = normalizeExternalVideoUrl (Js.trim u)) /\
    (target WebURL.audioRequest = TargetYoutube <->
       params_get "target" (searchParams parsed) = Some "youtube") /\
    (target WebURL.audioRequest = TargetUniversal <->
       params_get "target" (searchParams parsed) = Some "universal") /\
    (action WebURL.audioRequest = QueueOnly <->
       params_get "action" (searchParams parsed) = Some "queue_only") /\
    (source WebURL.audioRequest = None \/
     isTrustedExternalSource (source WebURL.audioRequest) = true).
Proof.
  apply (request_fields WebURL.isSafeUrl WebURL.audioLink WebURL.audioRequest).
  vm_compute. reflexivity.
Defined.

Lemma normalization_strips_playlist_witness :
  (exists q,
     normalizeExternalVideoUrl "https://youtu.be/abc?list=PL1&t=42&index=3" = toString q /\
     hostname q = "youtu.be" /\
     params_has "list" (searchParams q) = false /\
     params_has "index" (searchParams q) = false /\
     params_get "t" (searchParams q) = Some "42") /\
  normalizeExternalVideoUrl "https://www.youtube.com/playlist?list=PL1"
    = "https://www.youtube.com/playlist?list=PL1" /\
  normalizeExternalVideoUrl "not a url" = "not a url".
Proof.
  split; [|split].
  - destruct (WebURL.parse "https://youtu.be/abc?list=PL1&t=42&index=3") as [parsed|] eqn:Ep;
      [|vm_compute in Ep; discriminate].
    destruct (proj1 (@normalization_strips_playlist WebURL.platform WebURL_laws
                       "https://youtu.be/abc?list=PL1&t=42&index=3") parsed Ep)
      as (q & Hq & Hh & Hl & Hi & Hget).
    + vm_compute in Ep. injection Ep as <-. vm_compute. reflexivity.
    + right. vm_compute in Ep. injection Ep as <-. vm_compute. reflexivity.
    + exists q. split; [exact Hq|]. split; [|split; [exact Hl|split; [exact Hi|]]].
      * rewrite Hh. vm_compute in Ep. injection Ep as <-. reflexivity.
      * rewrite Hget by discriminate. vm_compute in Ep. injection Ep as <-. reflexivity.
  - pose proof (proj1 (proj2 (@normalization_strips_playlist WebURL.platform WebURL_laws
                       "https://www.youtube.com/playlist?list=PL1"))) as H.
    destruct (WebURL.parse "https://www.youtube.com/playlist?list=PL1") as [parsed|] eqn:Ep;
      [|vm_compute in Ep; discriminate].
    rewrite (H parsed Ep).
    + vm_compute in Ep. injection Ep as <-. vm_compute. reflexivity.
    + right. vm_compute in Ep. injection Ep as <-. split; [reflexivity|discriminate].
  - apply (proj2 (proj2 (@normalization_strips_playlist WebURL.platform WebURL_laws "not a url"))).
    vm_compute. reflexivity.
Defined.

(** ** Hosts the classifier always, or never, rejects *)

Lemma isPrivateOrLocalHost_eq_spec (hostname : string) :
  isPrivateOrLocalHost hostname = isPrivateOrLocalHost_spec hostname.
Proof.
  unfold isPrivateOrLocalHost, isPrivateOrLocalHost_spec.
  rewrite replace_leading_bracket, replace_trailing_bracket.
  set (host := stripTrailingBracket (stripLeadingBracket (Js.toLowerCase hostname))).
  rewrite !test_prefix, test_172.
  rewrite !if_true_orb, if_else_false.
  unfold Js.truthy. rewrite negb_involutive.
  unfold set_has, privateNames, privateSuffixes, privatePrefixes, privateIPv6Prefixes.
  cbn [existsb].
  rewrite !orb_false_r, !orb_assoc.
  reflexivity.
Qed.

Lemma endsWith_refl (s : string) : Js.endsWith s s = true.
Proof. destruct s; cbn [Js.endsWith]; rewrite String.eqb_refl; reflexivity. Qed.

Lemma endsWith_bracket_free (suf s : string) :
  suf <> "" -> Js.endsWith "]" suf = false ->
  Js.endsWith suf s = true -> Js.endsWith "]" s = false.
Proof.
  intros Hne Hsuf. induction s as [|c s IH]; [reflexivity|].
  intros H.
  assert (Hcase : String.eqb (String c s) suf = true \/ Js.endsWith suf s = true).
  { cbn [Js.endsWith] in H. apply orb_true_iff in H. exact H. }
  destruct Hcase as [E|E].
  - apply String.eqb_eq in E. rewrite E. exact Hsuf.
  - cbn [Js.endsWith]. rewrite (IH E), orb_false_r.
    apply String.eqb_neq. intros E'. injection E' as _ ->.
    apply (endsWith_nonempty suf "" Hne E). reflexivity.
Qed.

Lemma endsWith_stripLeading (suf s : string) :
  Js.startsWith "[" suf = false ->
  Js.endsWith suf s = true -> Js.endsWith suf (stripLeadingBracket s) = true.
Proof.
  intros Hsuf H. destruct s as [|c s]; [exact H|].
  unfold stripLeadingBracket. destruct (Ascii.eqb "[" c) eqn:Ec; [|exact H].
  cbn [Js.endsWith] in H. apply orb_true_iff in H as [H|H]; [|exact H].
  apply String.eqb_eq in H. subst suf. cbn [Js.startsWith] in Hsuf.
  rewrite Ec in Hsuf. discriminate.
Qed.

Lemma startsWith_length (p s : string) :
  Js.startsWith p s = true -> (String.length p <= String.length s)%nat.
Proof.
  revert s. induction p as [|a p IH]; intros s H; [simpl; lia|].
  destruct s as [|b s]; [discriminate|]. cbn [Js.startsWith] in H.
  apply andb_true_iff in H as [_ H]. apply IH in H. simpl. lia.
Qed.

Lemma startsWith_same_length (p s : string) :
  Js.startsWith p s = true -> String.length p = String.length s -> s = p.
Proof.
  revert s. induction p as [|a p IH]; intros s H Hl.
  - destruct s; [reflexivity|discriminate].
  - destruct s as [|b s]; [discriminate|]. cbn [Js.startsWith] in H.
    apply andb_true_iff in H as [Hab H]. apply Ascii.eqb_eq in Hab. subst b.
    f_equal. apply IH; [exact H|]. simpl in Hl. lia.
Qed.

Lemma startsWith_substring (p : string) :
  forall s n, Js.startsWith p s = true -> (String.length p <= n)%nat ->
  Js.startsWith p (substring 0 n s) = true.
Proof.
  induction p as [|a p IH]; intros s n H Hn; [reflexivity|].
  destruct s as [|b s]; [discriminate|].
  destruct n as [|n]; [simpl in Hn; lia|].
  cbn [Js.startsWith] in H. apply andb_true_iff in H as [Hab H].
  cbn [substring Js.startsWith]. rewrite Hab. cbn [andb].
  apply IH; [exact H|]. simpl in Hn. lia.
Qed.

Lemma startsWith_stripped (p s : string) :
  p <> "" -> Js.startsWith "[" p = false -> Js.endsWith "]" p = false ->
  Js.startsWith p s = true ->
  Js.startsWith p (stripTrailingBracket (stripLeadingBracket s)) = true.
Proof.
  intros Hne Hhead Hlast H.
  assert (Hl : stripLeadingBracket s = s).
  { destruct s as [|c s]; [reflexivity|]. unfold stripLeadingBracket.
    destruct (Ascii.eqb "[" c) eqn:Ec; [|reflexivity].
    destruct p as [|a p]; [contradiction|]. cbn [Js.startsWith] in H, Hhead.
    apply andb_true_iff in H as [Hac _]. apply Ascii.eqb_eq in Hac. subst a.
    rewrite Ec in Hhead. discriminate. }
  rewrite Hl. unfold stripTrailingBracket.
  destruct (Js.endsWith "]" s) eqn:Es; [|exact H].
  apply startsWith_substring; [exact H|].
  pose proof (startsWith_length p s H) as Hle.
  destruct (Nat.eq_dec (String.length p) (String.length s)) as [E|E]; [|lia].
  apply (startsWith_same_length p s H) in E. subst s. congruence.
Qed.

(** X5.  Every host that, lower-cased, ends with .localhost, .local or
    .internal, or starts with one of the private IPv4 prefixes, is
    classified private, whatever precedes or follows: the match is on the
    text, so a public name such as 10.example.com is rejected too. *)
Theorem private_by_suffix_or_prefix (hostname : string) :
  (forall suffix, In suffix privateSuffixes ->
     Js.endsWith suffix (Js.toLowerCase hostname) = true ->
     isPrivateOrLocalHost hostname = true) /\
  (forall prefix, In prefix privatePrefixes ->
     Js.startsWith prefix (Js.toLowerCase hostname) = true ->
     isPrivateOrLocalHost hostname = true).
Proof.
  split.
  - intros suffix Hin H. rewrite isPrivateOrLocalHost_eq_spec.
    unfold isPrivateOrLocalHost_spec.
    set (host := stripTrailingBracket (stripLeadingBracket (Js.toLowerCase hostname))).
    assert (Hfacts : suffix <> "" /\ Js.startsWith "[" suffix = false /\
                     Js.endsWith "]" suffix = false).
    { destruct Hin as [<-|[<-|[<-|[]]]]; repeat split; discriminate. }
    destruct Hfacts as (Hne & Hhead & Hlast).
    assert (Hhost : Js.endsWith suffix host = true).
    { unfold host, stripTrailingBracket.
      pose proof (endsWith_stripLeading _ _ Hhead H) as H1.
      rewrite (endsWith_bracket_free suffix _ Hne Hlast H1). exact H1. }
    assert (existsb (fun suffix => Js.endsWith suffix host) privateSuffixes = true) as ->.
    { apply existsb_exists. exists suffix. auto. }
    rewrite !orb_true_r. reflexivity.
  - intros prefix Hin H. rewrite isPrivateOrLocalHost_eq_spec.
    unfold isPrivateOrLocalHost_spec.
    set (host := stripTrailingBracket (stripLeadingBracket (Js.toLowerCase hostname))).
    assert (Hfacts : prefix <> "" /\ Js.startsWith "[" prefix = false /\
                     Js.endsWith "]" prefix = false).
    { unfold privatePrefixes in Hin.
      repeat (destruct Hin as [<-|Hin]; [repeat split; discriminate|]).
      destruct Hin. }
    destruct Hfacts as (Hne & Hhead & Hlast).
    assert (existsb (fun prefix => Js.startsWith prefix host) privatePrefixes = true) as ->.
    { apply existsb_exists. exists prefix. split; [exact Hin|].
      apply startsWith_stripped; assumption. }
    rewrite !orb_true_r. reflexivity.
Qed.

Lemma private_by_suffix_or_prefix_witness :
  isPrivateOrLocalHost "Printer.LOCAL" = true /\
  isPrivateOrLocalHost "10.example.com" = true /\
  isPrivateOrLocalHost "127.0.0.1.nip.io" = true.
Proof.
  split; [|split].
  - apply (proj1 (private_by_suffix_or_prefix "Printer.LOCAL") ".local").
    + simpl. auto.
    + reflexivity.
  - apply (proj2 (private_by_suffix_or_prefix "10.example.com") "10.").
    + simpl. auto.
    + reflexivity.
  - apply (proj2 (private_by_suffix_or_prefix "127.0.0.1.nip.io") "127.").
    + simpl. auto.
    + reflexivity.
Defined.

Lemma every_suffix (p : ascii -> bool) (suf s : string) :
  Js.endsWith suf s = true -> Js.every p s = true -> Js.every p suf = true.
Proof.
  induction s as [|c s IH]; cbn [Js.endsWith]; intros H Hs.
  - rewrite orb_false_r in H. apply String.eqb_eq in H. subst suf. reflexivity.
  - apply orb_true_iff in H as [H|H].
    + apply String.eqb_eq in H. subst suf. exact Hs.
    + simpl in Hs. apply andb_true_iff in Hs as [_ Hs]. auto.
Qed.

Lemma addressChar_lower (c : ascii) :
  addressChar c = true -> addressChar (Js.toLowerChar c) = true.
Proof. destruct c as [[] [] [] [] [] [] [] []]; intros H; try discriminate H; reflexivity. Qed.

Lemma every_addressChar_lower (t : string) :
  Js.every addressChar t = true -> Js.every addressChar (Js.toLowerCase t) = true.
Proof.
  induction t as [|c t IH]; simpl; [reflexivity|].
  intros H. apply andb_true_iff in H as [Hc Ht].
  rewrite (addressChar_lower c Hc), (IH Ht). reflexivity.
Qed.

Lemma toLowerCase_app (a b : string) :
  Js.toLowerCase (a ++ b) = Js.toLowerCase a ++ Js.toLowerCase b.
Proof.
  induction a as [|c a IH]; simpl; [reflexivity|]. rewrite IH. reflexivity.
Qed.

Lemma endsWith_app (x suf : string) : Js.endsWith suf (x ++ suf) = true.
Proof.
  induction x as [|c x IH]; [apply endsWith_refl|].
  simpl. rewrite IH. apply orb_true_r.
Qed.

Lemma substring_app_last (x : string) (c : ascii) :
  substring 0 (String.length (x ++ String c "") - 1) (x ++ String c "") = x.
Proof.
  induction x as [|a x IH]; [reflexivity|].
  cbn [append String.length]. rewrite Nat.sub_succ, Nat.sub_0_r.
  assert (Hlen : String.length (x ++ String c "") = S (String.length x)).
  { clear IH. induction x as [|b x IHx]; simpl; [reflexivity|]. rewrite IHx. reflexivity. }
  rewrite Hlen in *. cbn [substring]. rewrite Nat.sub_succ, Nat.sub_0_r in IH.
  rewrite IH. reflexivity.
Qed.

(** The host tested for an address of the IPv4-mapped range is the
    lower-cased literal, with or without its brackets. *)
Lemma mapped_spec (host : string) :
  Js.every addressChar host = true ->
  String.eqb ("::ffff:" ++ host) "" ||
  set_has privateNames ("::ffff:" ++ host) ||
  existsb (fun suffix => Js.endsWith suffix ("::ffff:" ++ host)) privateSuffixes ||
  existsb (fun prefix => Js.startsWith prefix ("::ffff:" ++ host)) privatePrefixes ||
  Js.includes ":" ("::ffff:" ++ host) &&
    existsb (fun prefix => Js.startsWith prefix ("::ffff:" ++ host)) privateIPv6Prefixes
  = false.
Proof.
  intros Hall.
  assert (Hall' : Js.every addressChar ("::ffff:" ++ host) = true).
  { rewrite every_app, Hall. reflexivity. }
  assert (Hsuf : existsb (fun suffix => Js.endsWith suffix ("::ffff:" ++ host))
                   privateSuffixes = false).
  { apply not_true_is_false. intros H. apply existsb_exists in H as (suf & Hin & H).
    pose proof (every_suffix addressChar _ _ H Hall') as Hs.
    destruct Hin as [<-|[<-|[<-|[]]]]; discriminate Hs. }
  rewrite Hsuf. reflexivity.
Qed.

(** X6.  A literal of the IPv4-mapped range, the text ::ffff: followed by
    hexadecimal digits, colons and dots, with or without brackets and in
    any case, is classified as not private: the loopback address written
    [::ffff:7f00:1] passes the classifier. *)
Theorem mapped_addresses_pass (tail : string) :
  Js.every addressChar tail = true ->
  isPrivateOrLocalHost ("::ffff:" ++ tail) = false /\
  isPrivateOrLocalHost ("[::FFFF:" ++ tail ++ "]") = false.
Proof.
  intros Hall. pose proof (every_addressChar_lower tail Hall) as Hlow.
  assert (Hnb : forall s, Js.every addressChar s = true -> Js.endsWith "]" s = false).
  { intros s Hs. apply not_true_is_false. intros H.
    pose proof (every_suffix addressChar _ _ H Hs) as Hb. discriminate Hb. }
  split; rewrite isPrivateOrLocalHost_eq_spec; unfold isPrivateOrLocalHost_spec.
  - assert (stripTrailingBracket (stripLeadingBracket (Js.toLowerCase ("::ffff:" ++ tail)))
            = "::ffff:" ++ Js.toLowerCase tail) as ->.
    { rewrite toLowerCase_app. change (Js.toLowerCase "::ffff:") with "::ffff:".
      change (stripLeadingBracket ("::ffff:" ++ Js.toLowerCase tail))
        with ("::ffff:" ++ Js.toLowerCase tail).
      unfold stripTrailingBracket. rewrite Hnb; [reflexivity|].
      rewrite every_app, Hlow. reflexivity. }
    apply mapped_spec, Hlow.
  - assert (stripTrailingBracket
              (stripLeadingBracket (Js.toLowerCase ("[::FFFF:" ++ tail ++ "]")))
            = "::ffff:" ++ Js.toLowerCase tail) as ->.
    { rewrite !toLowerCase_app. change (Js.toLowerCase "[::FFFF:") with "[::ffff:".
      change (Js.toLowerCase "]") with "]".
      change (stripLeadingBracket ("[::ffff:" ++ Js.toLowerCase tail ++ "]"))
        with (("::ffff:" ++ Js.toLowerCase tail) ++ "]").
      unfold stripTrailingBracket. rewrite endsWith_app.
      apply substring_app_last. }
    apply mapped_spec, Hlow.
Qed.

Lemma mapped_addresses_pass_witness :
  isPrivateOrLocalHost "::ffff:7f00:1" = false /\
  isPrivateOrLocalHost "[::FFFF:7f00:1]" = false.
Proof.
  apply (mapped_addresses_pass "7f00:1"). reflexivity.
Defined.

(** ** Classification up to the case of the letters A-Z and surrounding white space *)

Lemma allChars_complete (c : ascii) : In c allChars.
Proof.
  unfold allChars. rewrite <- (ascii_nat_embedding c).
  apply in_map, in_seq. pose proof (nat_ascii_bounded c). lia.
Qed.

Lemma isWhiteSpace_fold (c : ascii) : Js.isWhiteSpace (Js.foldAscii c) = Js.isWhiteSpace c.
Proof. split_char c. Qed.

Lemma foldLetters_length (s : string) : String.length (foldLetters s) = String.length s.
Proof.
  induction s as [|c s IH]; simpl; [reflexivity|]. rewrite IH. reflexivity.
Qed.

Lemma trimStart_fold (s : string) :
  Js.trimStart (foldLetters s) = foldLetters (Js.trimStart s).
Proof.
  induction s as [|c s IH]; simpl; [reflexivity|].
  rewrite isWhiteSpace_fold. destruct (Js.isWhiteSpace c); [exact IH|reflexivity].
Qed.

Lemma trimEnd_fold (s : string) :
  Js.trimEnd (foldLetters s) = foldLetters (Js.trimEnd s).
Proof.
  induction s as [|c s IH]; [reflexivity|].
  cbn [foldLetters Js.trimEnd]. rewrite IH, isWhiteSpace_fold.
  destruct (Js.trimEnd s); [destruct (Js.isWhiteSpace c)|]; reflexivity.
Qed.

Lemma trim_fold (s : string) : Js.trim (foldLetters s) = foldLetters (Js.trim s).
Proof.
  unfold Js.trim. rewrite trimStart_fold, trimEnd_fold. reflexivity.
Qed.

Lemma isWordChar_fold (c : ascii) : Js.isWordChar (Js.foldAscii c) = Js.isWordChar c.
Proof. split_char c. Qed.

Lemma isWordAt_fold (s : string) : isWordAt (foldLetters s) = isWordAt s.
Proof. destruct s; [reflexivity|apply isWordChar_fold]. Qed.

Lemma isWordBefore_fold (prev : option ascii) :
  isWordBefore (option_map Js.foldAscii prev) = isWordBefore prev.
Proof. destruct prev; [apply isWordChar_fold|reflexivity]. Qed.

Section CaseBlind.

Context {A : Type}.

Lemma m_fold (r : regex) :
  caseBlind r = true ->
  forall prev s (k' k : option ascii -> string -> option A),
  (forall p t,
     matched (k' (option_map Js.foldAscii p) (foldLetters t)) = matched (k p t)) ->
  matched (m r (option_map Js.foldAscii prev) (foldLetters s) k') =
  matched (m r prev s k).
Proof.
  induction r as [|p|r1 IH1 r2 IH2|r1 IH1 r2 IH2|r1 IH1| | |];
    intros Hb prev s k' k Hk; cbn [caseBlind] in Hb.
  - apply Hk.
  - destruct s as [|c s]; [reflexivity|]. cbn [m foldLetters].
    rewrite forallb_forall in Hb. specialize (Hb c (allChars_complete c)).
    apply eqb_prop in Hb. rewrite Hb.
    destruct (p c); [apply (Hk (Some c))|reflexivity].
  - apply andb_true_iff in Hb as [Hb1 Hb2]. cbn [m].
    apply (IH1 Hb1). intros p t. apply (IH2 Hb2), Hk.
  - apply andb_true_iff in Hb as [Hb1 Hb2]. cbn [m].
    specialize (IH1 Hb1 prev s k' k Hk). specialize (IH2 Hb2 prev s k' k Hk).
    destruct (m r1 (option_map Js.foldAscii prev) (foldLetters s) k');
      destruct (m r1 prev s k); simpl in IH1; try discriminate; auto.
  - cbn [m]. rewrite foldLetters_length.
    generalize (String.length s) as fuel.
    intros fuel. revert prev s.
    induction fuel as [|fuel IHf]; intros prev s; [apply Hk|].
    cbn beta iota fix.
    match goal with
    | |- matched (match ?a with Some x => Some x | None => _ end) =
         matched (match ?b with Some y => Some y | None => _ end) =>
        assert (Hab : matched a = matched b); [|destruct a; destruct b;
          simpl in Hab; try discriminate; [reflexivity|apply Hk]]
    end.
    apply (IH1 Hb). intros p t. rewrite !foldLetters_length.
    destruct (Nat.ltb (String.length t) (String.length s)); [apply IHf|reflexivity].
  - destruct prev; [reflexivity|apply (Hk None)].
  - destruct s; [apply (Hk prev "")|reflexivity].
  - cbn [m]. rewrite isWordBefore_fold, isWordAt_fold.
    destruct (xorb _ _); [apply Hk|reflexivity].
Qed.

End CaseBlind.

Lemma scan_fold (r : regex) :
  caseBlind r = true ->
  forall s prev i,
  matched (scan r (option_map Js.foldAscii prev) (foldLetters s) i) =
  matched (scan r prev s i).
Proof.
  intros Hb. induction s as [|c s IH]; intros prev i.
  - cbn [scan foldLetters].
    pose proof (m_fold r Hb prev "" (fun _ rest => Some rest) (fun _ rest => Some rest)
                  (fun _ _ => eq_refl)) as H.
    cbn [foldLetters] in H.
    destruct (m r (option_map Js.foldAscii prev) "" _);
      destruct (m r prev "" _); simpl in H; try discriminate; reflexivity.
  - cbn [scan foldLetters].
    pose proof (m_fold r Hb prev (String c s) (fun _ rest => Some rest)
                  (fun _ rest => Some rest) (fun _ _ => eq_refl)) as H.
    cbn [foldLetters] in H.
    destruct (m r (option_map Js.foldAscii prev) _ _);
      destruct (m r prev (String c s) _); simpl in H; try discriminate;
      [reflexivity|].
    apply (IH (Some c)).
Qed.

Lemma test_fold (r : regex) (s : string) :
  caseBlind r = true -> test r (foldLetters s) = test r s.
Proof.
  intros Hb. unfold test, exec. apply (scan_fold r Hb s None 0%nat).
Qed.

Lemma some_test_fold (patterns : list regex) (s : string) :
  forallb caseBlind patterns = true ->
  some_test patterns (foldLetters s) = some_test patterns s.
Proof.
  unfold some_test. induction patterns as [|r l IH]; [reflexivity|].
  cbn [forallb existsb]. intros H. apply andb_true_iff in H as [Hr Hl].
  rewrite (test_fold r s Hr), (IH Hl). reflexivity.
Qed.

Lemma non_retryable_caseBlind : forallb caseBlind NON_RETRYABLE_PATTERNS = true.
Proof. vm_compute. reflexivity. Qed.

Lemma retryable_caseBlind : forallb caseBlind RETRYABLE_PATTERNS = true.
Proof. vm_compute. reflexivity. Qed.

Lemma truthy_fold (s : string) : Js.truthy (foldLetters s) = Js.truthy s.
Proof. destruct s; reflexivity. Qed.

Lemma isNonRetryableError_fold (message : string) :
  isNonRetryableError (foldLetters message) = isNonRetryableError message.
Proof.
  unfold isNonRetryableError.
  rewrite trim_fold, truthy_fold.
  rewrite (some_test_fold NON_RETRYABLE_PATTERNS _ non_retryable_caseBlind).
  reflexivity.
Qed.

Lemma isRetryableError_fold (message : string) :
  isRetryableError (foldLetters message) = isRetryableError message.
Proof.
  unfold isRetryableError.
  rewrite trim_fold, truthy_fold, isNonRetryableError_fold.
  rewrite (some_test_fold RETRYABLE_PATTERNS _ retryable_caseBlind).
  reflexivity.
Qed.

Lemma isRetryableError_trim (message : string) :
  isRetryableError (Js.trim message) = isRetryableError message.
Proof.
  unfold isRetryableError. rewrite trim_idem. reflexivity.
Qed.

(** X7.  The two classifiers do not tell a letter A-Z from its lower-case
    form, nor see the white space around a message: two messages whose
    trimmed texts are equal once A-Z are replaced by a-z, every other
    character kept, are classified alike by both. *)
Theorem classification_ignores_case_and_margins (message message' : string) :
  foldLetters (Js.trim message) = foldLetters (Js.trim message') ->
  isNonRetryableError message = isNonRetryableError message' /\
  isRetryableError message = isRetryableError message'.
Proof.
  intros H. split.
  - rewrite <- (isNonRetryableError_trim message), <- (isNonRetryableError_trim message').
    rewrite <- (isNonRetryableError_fold (Js.trim message)), H.
    apply isNonRetryableError_fold.
  - rewrite <- (isRetryableError_trim message), <- (isRetryableError_trim message').
    rewrite <- (isRetryableError_fold (Js.trim message)), H.
    apply isRetryableError_fold.
Qed.

Lemma classification_ignores_case_and_margins_witness :
  isNonRetryableError "  SIGN IN to confirm your age" =
    isNonRetryableError "Sign in to confirm your age  " /\
  isRetryableError "  SIGN IN to confirm your age" =
    isRetryableError "Sign in to confirm your age  ".
Proof.
  apply (classification_ignores_case_and_margins
           "  SIGN IN to confirm your age" "Sign in to confirm your age  ").
  reflexivity.
Defined.

(** ** Error values and their classification *)

(** X8.  How an error value is classified once normalised: a usable
    message (a string that is not blank) decides alone, whatever
    [String(error)] would give; a value whose message can be read, with no
    usable message, and whose string form is empty or fails becomes
    'Unknown error', which neither classifier matches, so it is not
    retried; and a value whose message cannot be read is not classified at
    all, the exception leaving the normalisation. *)
Theorem error_value_classification :
  (forall mm t, Js.trim mm <> "" ->
     classified isRetryableError (normalizeErrorMessage (VObject (MessageString mm) t)) =
       Some (isRetryableError mm) /\
     classified isNonRetryableError (normalizeErrorMessage (VObject (MessageString mm) t)) =
       Some (isNonRetryableError mm)) /\
  (forall error,
     (forall s, error <> VString s) ->
     (forall t, error <> VObject MessageThrows t) ->
     (forall mm t, error = VObject (MessageString mm) t -> Js.trim mm = "") ->
     String_ error = None \/ String_ error = Some "" ->
     normalizeErrorMessage error = Returns "Unknown error" /\
     classified isRetryableError (normalizeErrorMessage error) = Some false /\
     classified isNonRetryableError (normalizeErrorMessage error) = Some false) /\
  (forall t,
     normalizeErrorMessage (VObject MessageThrows t) = Throws /\
     classified isRetryableError (normalizeErrorMessage (VObject MessageThrows t)) = None /\
     classified isNonRetryableError (normalizeErrorMessage (VObject MessageThrows t)) = None).
Proof.
  split; [|split].
  - intros mm t H. apply truthy_true in H. simpl. rewrite H. auto.
  - intros error Hns Hread Hblank Hstr.
    assert (normalizeErrorMessage error = Returns "Unknown error") as ->.
    { destruct error as [s|msg t|t].
      - exfalso. exact (Hns s eq_refl).
      - destruct msg as [mm| |]; simpl in *.
        + rewrite (Hblank mm t eq_refl). simpl.
          destruct Hstr as [->| ->]; reflexivity.
        + destruct Hstr as [->| ->]; reflexivity.
        + exfalso. exact (Hread t eq_refl).
      - simpl in *. destruct Hstr as [->| ->]; reflexivity. }
    repeat apply conj; vm_compute; reflexivity.
  - intros t. repeat apply conj; reflexivity.
Qed.

Lemma error_value_classification_witness :
  (classified isRetryableError
     (normalizeErrorMessage (VObject (MessageString "read timed out") (Some "Error: x")))
   = Some (isRetryableError "read timed out") /\
   classified isNonRetryableError
     (normalizeErrorMessage (VObject (MessageString "read timed out") (Some "Error: x")))
   = Some (isNonRetryableError "read timed out")) /\
  (normalizeErrorMessage (VObject (MessageString "  ") None) = Returns "Unknown error" /\
   classified isRetryableError (normalizeErrorMessage (VObject (MessageString "  ") None))
   = Some false /\
   classified isNonRetryableError (normalizeErrorMessage (VObject (MessageString "  ") None))
   = Some false).
Proof.
  pose proof error_value_classification as (Hmsg & Hnone & _).
  split.
  - apply Hmsg. discriminate.
  - apply Hnone.
    + discriminate.
    + discriminate.
    + intros mm t H. injection H as <- _. reflexivity.
    + left. reflexivity.
Defined.

(** ** Clamping twice *)

(** X9.  Clamping is idempotent: what either clamping function returns
    is a value it returns unchanged, and the defaults are such values. *)
Theorem clamp_idempotent (value : option number) :
  clampAutoRetryMaxAttempts (Some (clampAutoRetryMaxAttempts value)) =
    clampAutoRetryMaxAttempts value /\
  clampAutoRetryDelaySeconds (Some (clampAutoRetryDelaySeconds value)) =
    clampAutoRetryDelaySeconds value /\
  clampAutoRetryMaxAttempts (Some (default (maxAttempts AUTO_RETRY_LIMITS))) =
    default (maxAttempts AUTO_RETRY_LIMITS) /\
  clampAutoRetryDelaySeconds (Some (default (delaySeconds AUTO_RETRY_LIMITS))) =
    default (delaySeconds AUTO_RETRY_LIMITS).
Proof.
  split; [|split; [|split; reflexivity]].
  - destruct value as [[| | |q]|]; try reflexivity.
    unfold clampAutoRetryMaxAttempts, or_default. cbn [number_truthy].
    destruct (Qeq_bool q 0) eqn:E0; [reflexivity|]. cbn [negb].
    cbn [maxAttempts AUTO_RETRY_LIMITS min max default Math_min Math_max number_leb num].
    destruct (Qle_bool (inject_Z 10) q) eqn:E10; [reflexivity|].
    destruct (Qle_bool (inject_Z 1) q) eqn:E1; [|reflexivity].
    cbn [number_truthy]. rewrite E0. cbn [negb]. rewrite E10, E1. reflexivity.
  - destruct value as [[| | |q]|]; try reflexivity.
    unfold clampAutoRetryDelaySeconds, or_default. cbn [number_truthy].
    destruct (Qeq_bool q 0) eqn:E0; [reflexivity|]. cbn [negb].
    cbn [delaySeconds AUTO_RETRY_LIMITS min max default Math_min Math_max number_leb num].
    destruct (Qle_bool (inject_Z 60) q) eqn:E60; [reflexivity|].
    destruct (Qle_bool (inject_Z 1) q) eqn:E1; [|reflexivity].
    cbn [number_truthy]. rewrite E0. cbn [negb]. rewrite E60, E1. reflexivity.
Qed.

(** ** Time slept by the cancellable wait *)

Lemma sleptMs_second (hasOnTick : bool) (x : Z) (tr : list Event) :
  sleptMs (second hasOnTick x ++ tr)%list = (1000 + sleptMs tr)%Z.
Proof. destruct hasOnTick; reflexivity. Qed.

Lemma sleptMs_rounds (hasOnTick : bool) (l : list Z) (b : bool) :
  sleptMs (flat_map (second hasOnTick) l ++ [EvPoll b])%list =
  (1000 * Z.of_nat (List.length l))%Z.
Proof.
  induction l as [|x l IH]; [reflexivity|].
  cbn [flat_map List.length]. rewrite <- app_assoc, sleptMs_second, IH. lia.
Qed.

Lemma sleeps_rounds (hasOnTick : bool) (l : list Z) (b : bool) :
  sleeps (flat_map (second hasOnTick) l ++ [EvPoll b])%list =
  repeat 1000%Z (List.length l).
Proof.
  induction l as [|x l IH]; [reflexivity|].
  cbn [flat_map List.length repeat]. rewrite <- app_assoc.
  unfold sleeps in *. rewrite flat_map_app, IH.
  destruct hasOnTick; reflexivity.
Qed.



Lemma countdown_never_cancelled {S : Type} (env : Env S) (hasOnTick : bool) (n : nat) :
  (forall s, fst (isCancelled env s) = false) ->
  forall st, result (run env (countdown hasOnTick n) st) = true.
Proof.
  intros Hnever. induction n as [|n IH]; intros st.
  - cbn [countdown run]. pose proof (Hnever st) as H.
    destruct (isCancelled env st) as [c st1]. simpl in H. subst c. reflexivity.
  - cbn [countdown run]. pose proof (Hnever st) as H.
    destruct (isCancelled env st) as [c st1]. simpl in H. subst c.
    destruct hasOnTick; cbn [run].
    + specialize (IH (sleep env 1000 (onTick env (Z.of_nat (Datatypes.S n)) st1))).
      destruct (run env (countdown true n) _) as [[a st2] tr]. exact IH.
    + specialize (IH (sleep env 1000 st1)).
      destruct (run env (countdown false n) _) as [[a st2] tr]. exact IH.
Qed.



(** ** The preview formatters *)

Section PreviewFormatters.

Import Preview.

Lemma digits_of_uint (d : Decimal.uint) :
  Js.every Js.isDigit (DecimalString.NilEmpty.string_of_uint d) = true.
Proof. induction d; simpl; auto. Qed.

Lemma Number_toString_nonneg (z : Z) :
  (0 <= z)%Z -> Number_toString z = DecimalString.NilEmpty.string_of_uint (N.to_uint (Z.to_N z)).
Proof.
  intros Hz. destruct z as [|p|p]; [reflexivity| |lia].
  unfold Number_toString. cbn [Z.to_int Z.to_N N.to_uint DecimalString.NilZero.string_of_int].
  unfold DecimalString.NilZero.string_of_uint.
  destruct (Pos.to_uint p) eqn:E; try reflexivity.
  exfalso. exact (DecimalPos.Unsigned.to_uint_nonnil p E).
Qed.

Lemma to_uint_nonnil (n : N) : N.to_uint n <> Decimal.Nil.
Proof.
  destruct n as [|p]; [discriminate|]. apply DecimalPos.Unsigned.to_uint_nonnil.
Qed.

Lemma readDecimal_digits (d : Decimal.uint) :
  d <> Decimal.Nil ->
  readDecimal (DecimalString.NilEmpty.string_of_uint d) = Some (Z.of_N (N.of_uint d)).
Proof.
  intros Hd. unfold readDecimal, DecimalString.NilZero.uint_of_string.
  destruct (DecimalString.NilEmpty.string_of_uint d) eqn:E.
  - destruct d; try discriminate E. contradiction.
  - rewrite <- E, DecimalString.NilEmpty.usu. reflexivity.
Qed.

Lemma readDecimal_toString (z : Z) :
  (0 <= z)%Z -> readDecimal (Number_toString z) = Some z.
Proof.
  intros Hz. rewrite (Number_toString_nonneg z Hz).
  rewrite readDecimal_digits by apply to_uint_nonnil.
  rewrite DecimalN.Unsigned.of_to, Z2N.id by exact Hz. reflexivity.
Qed.

Lemma readDecimal_zero (t : string) :
  t <> "" -> readDecimal (String "0" t) = readDecimal t.
Proof.
  intros Ht. unfold readDecimal, DecimalString.NilZero.uint_of_string.
  destruct t as [|c t]; [contradiction|].
  cbn [DecimalString.NilEmpty.uint_of_string].
  destruct (DecimalString.uint_of_char c (DecimalString.NilEmpty.uint_of_string t));
    reflexivity.
Qed.

Lemma Number_toString_nonempty (z : Z) : (0 <= z)%Z -> Number_toString z <> "".
Proof.
  intros Hz H. pose proof (readDecimal_toString z Hz) as R.
  rewrite H in R. discriminate R.
Qed.

Lemma readDecimal_padded (z : Z) :
  (0 <= z)%Z -> readDecimal (padStart 2 "0" (Number_toString z)) = Some z.
Proof.
  intros Hz. unfold padStart.
  pose proof (Number_toString_nonempty z Hz) as Hne.
  destruct (Number_toString z) as [|a [|b t]] eqn:E; [contradiction| |].
  - cbn [String.length Nat.sub Js.repeat append].
    rewrite readDecimal_zero by discriminate. rewrite <- E.
    apply readDecimal_toString, Hz.
  - cbn [String.length Nat.sub Js.repeat append]. rewrite <- E.
    apply readDecimal_toString, Hz.
Qed.

Lemma digits_toString (z : Z) :
  (0 <= z)%Z -> Js.every Js.isDigit (Number_toString z) = true.
Proof.
  intros Hz. rewrite (Number_toString_nonneg z Hz). apply digits_of_uint.
Qed.

Lemma digits_padded (z : Z) :
  (0 <= z)%Z -> Js.every Js.isDigit (padStart 2 "0" (Number_toString z)) = true.
Proof.
  intros Hz. unfold padStart. rewrite every_app, (digits_toString z Hz), andb_true_r.
  destruct (2 - String.length (Number_toString z))%nat as [|[|n]]; try reflexivity.
  simpl. clear. induction n as [|n IH]; [reflexivity|exact IH].
Qed.

Lemma splitOn_digits (a : string) :
  Js.every Js.isDigit a = true ->
  WebURL.splitOn ":" a = [a] /\
  forall rest, WebURL.splitOn ":" (a ++ String ":" rest) = a :: WebURL.splitOn ":" rest.
Proof.
  induction a as [|c a IH]; intros H.
  - split; [reflexivity|]. intros rest. reflexivity.
  - cbn [Js.every] in H. apply andb_true_iff in H as [Hc Ha].
    destruct (IH Ha) as [IH1 IH2].
    assert (Ec : Ascii.eqb c ":" = false).
    { destruct (Ascii.eqb c ":") eqn:E; [|reflexivity].
      apply Ascii.eqb_eq in E. subst c. discriminate Hc. }
    split.
    + cbn [WebURL.splitOn]. rewrite Ec, IH1. reflexivity.
    + intros rest. cbn [append WebURL.splitOn]. rewrite Ec, IH2. reflexivity.
Qed.

(** X12.  [formatDuration] shows the placeholder for null and for zero;
    for a positive whole number of seconds (below 2^53, where the
    arithmetic on doubles is exact) it writes minutes and seconds, with
    hours before them from 3600 seconds on, and reading the fields back
    gives the number of seconds again. *)
Theorem formatDuration_round_trip (seconds : Z) :
  formatDuration None = "--:--" /\
  formatDuration (Some 0%Z) = "--:--" /\
  ((0 < seconds < 2 ^ 53)%Z ->
     parseClock (formatDuration (Some seconds)) = Some seconds /\
     List.length (WebURL.splitOn ":" (formatDuration (Some seconds))) =
       (if (3600 <=? seconds)%Z then 3%nat else 2%nat)).
Proof.
  split; [reflexivity|]. split; [reflexivity|].
  intros [Hpos _]. unfold formatDuration.
  assert ((seconds =? 0)%Z = false) as -> by (apply Z.eqb_neq; lia).
  cbv zeta.
  rewrite !Z.rem_mod_nonneg by lia.
  set (hrs := (seconds / 3600)%Z).
  set (mins := (seconds mod 3600 / 60)%Z).
  set (secs := (seconds mod 60)%Z).
  assert (Hh : (0 <= hrs)%Z) by (apply Z.div_pos; lia).
  assert (Hm : (0 <= mins)%Z).
  { apply Z.div_pos; [|lia]. apply Z.mod_pos_bound. lia. }
  assert (Hs : (0 <= secs)%Z) by (apply Z.mod_pos_bound; lia).
  assert (Hsum : (3600 * hrs + 60 * mins + secs = seconds)%Z).
  { unfold hrs, mins, secs.
    pose proof (Z.div_mod seconds 3600 ltac:(lia)).
    pose proof (Z.div_mod (seconds mod 3600) 60 ltac:(lia)).
    pose proof (Z.div_mod seconds 60 ltac:(lia)).
    pose proof (Z.mod_pos_bound seconds 60 ltac:(lia)).
    pose proof (Z.mod_pos_bound (seconds mod 3600) 60 ltac:(lia)).
    lia. }
  assert (Hhrs : (0 <? hrs)%Z = (3600 <=? seconds)%Z).
  { unfold hrs. destruct (Z.leb_spec 3600 seconds) as [H|H].
    - apply Z.ltb_lt. apply Z.div_str_pos. lia.
    - rewrite Z.div_small by lia. reflexivity. }
  rewrite <- Hhrs.
  destruct (splitOn_digits _ (digits_toString hrs Hh)) as [_ Sh].
  destruct (splitOn_digits _ (digits_toString mins Hm)) as [_ Sm].
  destruct (splitOn_digits _ (digits_padded mins Hm)) as [_ Spm].
  destruct (splitOn_digits _ (digits_padded secs Hs)) as [Sps _].
  destruct (0 <? hrs)%Z eqn:E.
  - unfold parseClock.
    change (Number_toString hrs ++ ":" ++ padStart 2 "0" (Number_toString mins) ++ ":" ++
            padStart 2 "0" (Number_toString secs))
      with (Number_toString hrs ++ String ":" (padStart 2 "0" (Number_toString mins) ++
            String ":" (padStart 2 "0" (Number_toString secs)))).
    rewrite Sh, Spm, Sps. cbn [map List.length].
    rewrite (readDecimal_toString hrs Hh), (readDecimal_padded mins Hm),
      (readDecimal_padded secs Hs).
    split; [f_equal; exact Hsum|reflexivity].
  - unfold parseClock.
    change (Number_toString mins ++ ":" ++ padStart 2 "0" (Number_toString secs))
      with (Number_toString mins ++ String ":" (padStart 2 "0" (Number_toString secs))).
    rewrite Sm, Sps. cbn [map List.length].
    rewrite (readDecimal_toString mins Hm), (readDecimal_padded secs Hs).
    split; [|reflexivity]. f_equal.
    apply Z.ltb_ge in E. lia.
Qed.

Lemma formatDuration_round_trip_witness :
  formatDuration (Some 3725%Z) = "1:02:05" /\
  formatDuration (Some 59%Z) = "0:59" /\
  parseClock (formatDuration (Some 3725%Z)) = Some 3725%Z.
Proof.
  split; [reflexivity|]. split; [reflexivity|].
  apply (proj1 (proj2 (proj2 (formatDuration_round_trip 3725)) ltac:(lia))).
Defined.

(** X13.  [formatDate] gives the empty string for null and for every
    string that is not 8 characters long; from 8 characters it makes the
    10 characters yyyy-mm-dd, whatever the characters are (digits are not
    checked), and taking the two dashes out gives the input back. *)
Theorem formatDate_layout (dateStr : option string) :
  (formatDate dateStr = "" <->
     dateStr = None \/ exists s, dateStr = Some s /\ String.length s <> 8%nat) /\
  (forall s, dateStr = Some s -> String.length s = 8%nat ->
     String.length (formatDate dateStr) = 10%nat /\
     String.get 4 (formatDate dateStr) = Some "-"%char /\
     String.get 7 (formatDate dateStr) = Some "-"%char /\
     substring 0 4 (formatDate dateStr) ++ substring 5 2 (formatDate dateStr) ++
       substring 8 2 (formatDate dateStr) = s).
Proof.
  assert (Hfmt : forall s, String.length s = 8%nat ->
            exists a b c d e f g h,
              s = String a (String b (String c (String d (String e (String f
                    (String g (String h ""))))))) /\
              formatDate (Some s) =
                String a (String b (String c (String d (String "-" (String e (String f
                  (String "-" (String g (String h "")))))))))).
  { intros s Hl.
    destruct s as [|a [|b [|c [|d [|e [|f [|g [|h [|i s]]]]]]]]]; try discriminate Hl.
    exists a, b, c, d, e, f, g, h. split; reflexivity. }
  split.
  - split.
    + intros H. destruct dateStr as [s|]; [right|left; reflexivity].
      exists s. split; [reflexivity|]. intros Hl.
      destruct (Hfmt s Hl) as (a & b & c & d & e & f & g & h & _ & Hf).
      rewrite Hf in H. discriminate H.
    + intros [->|(s & -> & Hl)]; [reflexivity|].
      unfold formatDate. apply Nat.eqb_neq in Hl. rewrite Hl.
      rewrite orb_true_r. reflexivity.
  - intros s -> Hl.
    destruct (Hfmt s Hl) as (a & b & c & d & e & f & g & h & -> & ->).
    repeat split; reflexivity.
Qed.

Lemma formatDate_layout_witness :
  formatDate (Some "20240229") = "2024-02-29" /\
  formatDate (Some "notadate") = "nota-da-te" /\
  formatDate (Some "2024-02-29") = "" /\
  String.length (formatDate (Some "20240229")) = 10%nat.
Proof.
  split; [reflexivity|]. split; [reflexivity|]. split.
  - apply (proj2 (proj1 (formatDate_layout (Some "2024-02-29")))).
    right. exists "2024-02-29". split; [reflexivity|discriminate].
  - apply (proj1 (proj2 (formatDate_layout (Some "20240229")) "20240229" eq_refl eq_refl)).
Defined.

End PreviewFormatters.

(** ** The subtitle style dialog *)

(** X14.  The font preset select always shows one of its options: a
    common font whose name equals the typed one up to case and
    surrounding white space, or else the custom entry; and picking the
    option that is shown leaves it shown. *)
Theorem fontPresetValue_is_an_option (fontName : string) :
  let value := fontPresetValue fontName in
  (value = customFontValue \/
   In value commonFonts /\ Js.toLowerCase value = Js.toLowerCase (Js.trim fontName)) /\
  (value = customFontValue <->
     forall font, In font commonFonts ->
       Js.toLowerCase font <> Js.toLowerCase (Js.trim fontName)) /\
  fontPresetValue (onValueChange value fontName) = value.
Proof.
  cbv zeta.
  assert (Hfonts : forall font, In font commonFonts ->
            Js.truthy font = true /\ font <> customFontValue /\
            fontPresetValue font = font).
  { unfold commonFonts. intros font Hin.
    repeat (destruct Hin as [<-|Hin]; [repeat split; discriminate || reflexivity|]).
    destruct Hin. }
  remember (fontPresetValue fontName) as value eqn:Ev.
  unfold fontPresetValue in Ev.
  destruct (find _ commonFonts) as [font|] eqn:E.
  - apply find_some in E as [Hin Heq]. apply String.eqb_eq in Heq.
    destruct (Hfonts font Hin) as (Ht & Hnc & Hfix). rewrite Ht in Ev. subst value.
    split; [right; auto|]. split.
    + split; [contradiction|]. intros H. exfalso. exact (H font Hin Heq).
    + unfold onValueChange.
      apply String.eqb_neq in Hnc. rewrite Hnc. exact Hfix.
  - subst value. split; [left; reflexivity|]. split.
    + split; [|reflexivity]. intros _ font Hin Heq.
      apply (find_none _ _ E) in Hin. apply String.eqb_neq in Hin. contradiction.
    + unfold onValueChange. rewrite String.eqb_refl.
      unfold fontPresetValue. rewrite E. reflexivity.
Qed.

Section ApplyProfileRulesFacts.

Variable Entry : Type.
Variable text : Entry -> string.
Variable startTime endTime : Entry -> number.
Variable getSubtitleStyleProfile : string -> Thresholds.
Variable fixLineBreaking : list Entry -> number -> list Entry.
Variable fixShortDuration : list Entry -> number -> list Entry.
Variable fixLongDuration : list Entry -> number -> list Entry.
Variable fixGaps : list Entry -> number -> number -> list Entry.


Lemma countChanged_bound (entries result : list Entry) :
  (countChanged Entry text startTime endTime entries result <= List.length entries)%nat /\
  (countChanged Entry text startTime endTime entries result <= List.length result)%nat.
Proof.
  revert result. induction entries as [|b entries IH]; intros [|a result];
    cbn [countChanged List.length]; try (split; lia).
  destruct (IH result) as [H1 H2].
  destruct (entryChanged Entry text startTime endTime b a); split; lia.
Qed.

Lemma countChanged_positive (entries result : list Entry) :
  (0 < countChanged Entry text startTime endTime entries result)%nat <->
  exists i before after,
    nth_error entries i = Some before /\ nth_error result i = Some after /\
    entryChanged Entry text startTime endTime before after = true.
Proof.
  revert result. induction entries as [|b entries IH]; intros [|a result];
    cbn [countChanged].
  - split; [lia|]. intros (i & x & y & H & _). destruct i; discriminate.
  - split; [lia|]. intros (i & x & y & H & _). destruct i; discriminate.
  - split; [lia|]. intros (i & x & y & _ & H & _). destruct i; discriminate.
  - destruct (entryChanged Entry text startTime endTime b a) eqn:E.
    + split; [|lia]. intros _. exists 0%nat, b, a. auto.
    + rewrite Nat.add_0_l, IH. split.
      * intros (i & x & y & H). exists (Datatypes.S i), x, y. exact H.
      * intros (i & x & y & Hx & Hy & Hd). destruct i as [|i].
        -- injection Hx as <-. injection Hy as <-. congruence.
        -- exists i, x, y. auto.
Qed.

(** X15.  [applyProfileRules] sets the selected profile first and the
    applied count last; the count is the number of positions where the
    fixed entry exists and differs, at most the number of entries; and
    the entries are replaced, under the label of the profile, exactly
    when the count is positive.  Entries that the fixes drop from the end
    are not counted: when nothing else differs, nothing is replaced. *)
Theorem applyProfileRules_calls (selectedProfileId : string) (entries : list Entry) :
  let result := fixedEntries Entry getSubtitleStyleProfile fixLineBreaking
                  fixShortDuration fixLongDuration fixGaps selectedProfileId entries in
  let calls := applyProfileRules Entry text startTime endTime getSubtitleStyleProfile
                 fixLineBreaking fixShortDuration fixLongDuration fixGaps
                 selectedProfileId entries in
  let count := countChanged Entry text startTime endTime entries result in
  (count <= List.length entries)%nat /\
  ((exists i before after,
      nth_error entries i = Some before /\ nth_error result i = Some after /\
      entryChanged Entry text startTime endTime before after = true) ->
   calls = [SetStyleProfile selectedProfileId;
            ReplaceAllEntries result ("Apply style profile: " ++ selectedProfileId);
            SetAppliedCount count] /\ (0 < count)%nat) /\
  ((forall i before after,
      nth_error entries i = Some before -> nth_error result i = Some after ->
      entryChanged Entry text startTime endTime before after = false) ->
   calls = [SetStyleProfile selectedProfileId; SetAppliedCount 0]).
Proof.
  cbv zeta. unfold applyProfileRules.
  set (result := fixedEntries _ _ _ _ _ _ _ _).
  split; [apply countChanged_bound|]. split.
  - intros H. apply countChanged_positive in H.
    assert (Nat.ltb 0 (countChanged Entry text startTime endTime entries result) = true)
      as -> by (apply Nat.ltb_lt, H).
    split; [reflexivity|exact H].
  - intros H.
    assert (Hz : countChanged Entry text startTime endTime entries result = 0%nat).
    { destruct (Nat.eq_dec (countChanged Entry text startTime endTime entries result) 0)
        as [E|E]; [exact E|].
      assert (Hp : (0 < countChanged Entry text startTime endTime entries result)%nat) by lia.
      apply countChanged_positive in Hp as (i & x & y & Hx & Hy & Hd).
      rewrite (H i x y Hx Hy) in Hd. discriminate. }
    rewrite Hz. reflexivity.
Qed.

End ApplyProfileRulesFacts.

Lemma fontPresetValue_is_an_option_witness :
  fontPresetValue "  arial " = "Arial" /\
  fontPresetValue "Comic Sans" = customFontValue /\
  fontPresetValue (onValueChange (fontPresetValue "  arial ") "  arial ") =
    fontPresetValue "  arial ".
Proof.
  split; [reflexivity|]. split; [reflexivity|].
  apply (proj2 (proj2 (fontPresetValue_is_an_option "  arial "))).
Defined.

Lemma applyProfileRules_calls_witness :
  DialogExample.lowerCasing "netflix" ["Hello"; "world"] =
    [SetStyleProfile "netflix";
     ReplaceAllEntries ["hello"; "world"] "Apply style profile: netflix";
     SetAppliedCount 1] /\
  DialogExample.dropping "netflix" ["Hello"; "world"] =
    [SetStyleProfile "netflix"; SetAppliedCount 0].
Proof.
  split.
  - apply (proj1 (proj2 (applyProfileRules_calls string (fun e => e)
                           (fun _ => num 0) (fun _ => num 1)
                           (fun _ => DialogExample.thresholds)
                           (fun l _ => map Js.toLowerCase l)
                           DialogExample.keep DialogExample.keep (fun l _ _ => l)
                           "netflix" ["Hello"; "world"]))).
    exists 0%nat, "Hello", "hello". repeat apply conj; reflexivity.
  - apply (proj2 (proj2 (applyProfileRules_calls string (fun e => e)
                           (fun _ => num 0) (fun _ => num 1)
                           (fun _ => DialogExample.thresholds)
                           DialogExample.keep DialogExample.keep DialogExample.keep
                           (fun l _ _ => removelast l)
                           "netflix" ["Hello"; "world"]))).
    intros [|[|i]] before after Hb Ha; try discriminate Ha.
    injection Hb as <-. injection Ha as <-. reflexivity.
Defined.

(** ** The format groups of the preview *)

Section SortFacts.

Context {A : Type}.
Variable before : A -> A -> bool.
Hypothesis before_total : forall a b, before a b = true \/ before b a = true.
Hypothesis before_trans :
  forall a b c, before a b = true -> before b c = true -> before a c = true.

Lemma insertSorted_In (x : A) (l : list A) (y : A) :
  In y (insertSorted before x l) <-> y = x \/ In y l.
Proof.
  induction l as [|z l IH]; cbn [insertSorted].
  - simpl. intuition.
  - destruct (before x z); simpl; [intuition|]. rewrite IH. intuition.
Qed.

Lemma sort_In (l : list A) (y : A) : In y (sort before l) <-> In y l.
Proof.
  induction l as [|x l IH]; [reflexivity|].
  cbn [sort]. rewrite insertSorted_In, IH. simpl. intuition.
Qed.

Lemma insertSorted_ordered (x : A) (l : list A) :
  ordered before l -> ordered before (insertSorted before x l).
Proof.
  induction l as [|z l IH]; intros Ho; cbn [insertSorted].
  - simpl. intuition.
  - destruct Ho as [Hz Ho]. destruct (before x z) eqn:E.
    + split; [|split; assumption].
      intros y [<-|Hy]; [exact E|]. apply (before_trans x z y E), Hz, Hy.
    + split; [|apply IH, Ho].
      intros y Hy. apply insertSorted_In in Hy as [->|Hy]; [|apply Hz, Hy].
      destruct (before_total x z) as [H|H]; [congruence|exact H].
Qed.

Lemma sort_ordered (l : list A) : ordered before (sort before l).
Proof.
  induction l as [|x l IH]; [exact I|]. apply insertSorted_ordered, IH.
Qed.

Lemma sort_length (l : list A) : List.length (sort before l) = List.length l.
Proof.
  induction l as [|x l IH]; [reflexivity|]. cbn [sort List.length]. rewrite <- IH.
  generalize (sort before l) as s. clear. intros s.
  induction s as [|z s IHs]; [reflexivity|].
  cbn [insertSorted]. destruct (before x z); cbn [List.length]; [reflexivity|].
  rewrite IHs. reflexivity.
Qed.

End SortFacts.

Section FormatGroups.

Import Preview.

Lemma byHeightDesc_total (a b : FormatOption) :
  byHeightDesc a b = true \/ byHeightDesc b a = true.
Proof.
  unfold byHeightDesc.
  destruct (Z.leb_spec (orZeroZ (height b) - orZeroZ (height a)) 0); [left; reflexivity|].
  right. apply Z.leb_le. lia.
Qed.

Lemma byHeightDesc_trans (a b c : FormatOption) :
  byHeightDesc a b = true -> byHeightDesc b c = true -> byHeightDesc a c = true.
Proof.
  unfold byHeightDesc. rewrite !Z.leb_le. lia.
Qed.

Lemma byTbrDesc_total (a b : FormatOption) :
  byTbrDesc a b = true \/ byTbrDesc b a = true.
Proof.
  unfold byTbrDesc.
  destruct (Qlt_le_dec 0 (orZeroQ (tbr b) - orZeroQ (tbr a))) as [H|H].
  - right. apply Qle_bool_iff. lra.
  - left. apply Qle_bool_iff. exact H.
Qed.

Lemma byTbrDesc_trans (a b c : FormatOption) :
  byTbrDesc a b = true -> byTbrDesc b c = true -> byTbrDesc a c = true.
Proof.
  unfold byTbrDesc. rewrite !Qle_bool_iff. lra.
Qed.

(** X16.  The preview lists as video the formats with a video codec
    other than 'none' and a height, and as audio those with an audio
    codec other than 'none' and no video codec; no format is in both, and
    a format with a video codec and no height is in neither.  The video
    list is in descending height, so the format it starts with, the one
    behind the "Up to" badge, has the greatest height; the audio list is
    in descending bitrate. *)
Theorem format_groups (formats : list FormatOption) :
  (forall f, In f (videoFormats formats) <-> In f formats /\ isVideoFormat f = true) /\
  (forall f, In f (audioFormats formats) <-> In f formats /\ isAudioFormat f = true) /\
  (forall f, ~ (In f (videoFormats formats) /\ In f (audioFormats formats))) /\
  (forall f, truthyString (vcodec f) = true -> strict_eq (vcodec f) "none" = false ->
     truthyZ (height f) = false ->
     ~ In f (videoFormats formats) /\ ~ In f (audioFormats formats)) /\
  ordered byHeightDesc (videoFormats formats) /\
  ordered byTbrDesc (audioFormats formats) /\
  (forall top rest, videoFormats formats = top :: rest ->
     forall f, In f (videoFormats formats) ->
       (orZeroZ (height f) <= orZeroZ (height top))%Z) /\
  (forall top rest, audioFormats formats = top :: rest ->
     forall f, In f (audioFormats formats) -> orZeroQ (tbr f) <= orZeroQ (tbr top)).
Proof.
  assert (Hv : forall f, In f (videoFormats formats) <->
                         In f formats /\ isVideoFormat f = true).
  { intros f. unfold videoFormats. rewrite sort_In, filter_In. reflexivity. }
  assert (Ha : forall f, In f (audioFormats formats) <->
                         In f formats /\ isAudioFormat f = true).
  { intros f. unfold audioFormats. rewrite sort_In, filter_In. reflexivity. }
  split; [exact Hv|]. split; [exact Ha|]. split; [|split; [|split; [|split; [|split]]]].
  - intros f [H1 H2]. apply Hv in H1 as [_ H1]. apply Ha in H2 as [_ H2].
    unfold isVideoFormat, isAudioFormat in *.
    destruct (truthyString (vcodec f)); destruct (strict_eq (vcodec f) "none");
      destruct (truthyString (acodec f)); destruct (strict_eq (acodec f) "none");
      destruct (truthyZ (height f)); discriminate.
  - intros f H1 H2 H3. split; intros H.
    + apply Hv in H as [_ H]. unfold isVideoFormat in H.
      rewrite H3, andb_false_r in H. discriminate.
    + apply Ha in H as [_ H]. unfold isAudioFormat in H.
      rewrite H1, H2, andb_false_r in H. discriminate.
  - apply sort_ordered; [apply byHeightDesc_total|apply byHeightDesc_trans].
  - apply sort_ordered; [apply byTbrDesc_total|apply byTbrDesc_trans].
  - intros top rest E f Hf.
    pose proof (sort_ordered byHeightDesc byHeightDesc_total byHeightDesc_trans
                  (filter isVideoFormat formats)) as Ho.
    fold (videoFormats formats) in Ho. rewrite E in Ho, Hf.
    destruct Ho as [Htop _]. destruct Hf as [<-|Hf]; [lia|].
    specialize (Htop f Hf). unfold byHeightDesc in Htop.
    apply Z.leb_le in Htop. lia.
  - intros top rest E f Hf.
    pose proof (sort_ordered byTbrDesc byTbrDesc_total byTbrDesc_trans
                  (filter isAudioFormat formats)) as Ho.
    fold (audioFormats formats) in Ho. rewrite E in Ho, Hf.
    destruct Ho as [Htop _]. destruct Hf as [<-|Hf]; [apply Qle_refl|].
    specialize (Htop f Hf). unfold byTbrDesc in Htop.
    apply Qle_bool_iff in Htop. lra.
Qed.

Lemma format_groups_witness :
  videoFormats exampleFormats =
    [exampleFormat "137" (Some 1080%Z) (Some "avc1") (Some "none") (Some (2500 # 1));
     exampleFormat "136" (Some 720%Z) (Some "avc1") (Some "none") (Some (1200 # 1))] /\
  (forall f, In f (videoFormats exampleFormats) ->
     (orZeroZ (height f) <= 1080)%Z) /\
  (~ In (exampleFormat "sb0" None (Some "mjpeg") (Some "none") None)
        (videoFormats exampleFormats) /\
   ~ In (exampleFormat "sb0" None (Some "mjpeg") (Some "none") None)
        (audioFormats exampleFormats)).
Proof.
  pose proof (format_groups exampleFormats) as (_ & _ & _ & Hnone & _ & _ & Htop & _).
  split; [reflexivity|]. split.
  - apply (Htop (exampleFormat "137" (Some 1080%Z) (Some "avc1") (Some "none")
                   (Some (2500 # 1)))
                [exampleFormat "136" (Some 720%Z) (Some "avc1") (Some "none")
                   (Some (1200 # 1))]).
    reflexivity.
  - apply Hnone; reflexivity.
Defined.

End FormatGroups.

(** ** Routing after normalisation *)

Section RouteFacts.

Context {P : URLPlatform} {laws : URLSearchParamsLaws P}.

Lemma normalizedURL_hostname (parsed : URL) :
  hostname (normalizedURL parsed) = hostname parsed.
Proof.
  unfold normalizedURL.
  destruct (isYouTubeHost _); [|reflexivity].
  destruct (_ || _); [|reflexivity].
  rewrite !delete_hostname. reflexivity.
Qed.

(** X17.  Normalisation does not change the route: for every url whose
    normalised form the platform parses back to the same URL, the url and
    its normalised form are both recognised video URLs or both not, and
    resolve to the same route under every preferred target. *)
Theorem route_stable_under_normalisation (u : string) :
  Reparses u ->
  isYouTubeUrl (normalizeExternalVideoUrl u) = isYouTubeUrl u /\
  forall preferredTarget,
    resolveExternalRouteTarget preferredTarget (normalizeExternalVideoUrl u) =
    resolveExternalRouteTarget preferredTarget u.
Proof.
  intros Hrt.
  assert (H : isYouTubeUrl (normalizeExternalVideoUrl u) = isYouTubeUrl u).
  { unfold normalizeExternalVideoUrl, isYouTubeUrl at 2.
    destruct (newURL u) as [parsed|] eqn:E.
    - unfold isYouTubeUrl. rewrite (Hrt parsed E), normalizedURL_hostname. reflexivity.
    - unfold isYouTubeUrl. rewrite E. reflexivity. }
  split; [exact H|].
  intros [| |]; unfold resolveExternalRouteTarget; [rewrite H|..]; reflexivity.
Qed.

End RouteFacts.

Lemma route_stable_under_normalisation_witness :
  isYouTubeUrl (normalizeExternalVideoUrl "https://youtu.be/abc?list=PL1&t=42")
    = isYouTubeUrl "https://youtu.be/abc?list=PL1&t=42" /\
  forall preferredTarget,
    resolveExternalRouteTarget preferredTarget
      (normalizeExternalVideoUrl "https://youtu.be/abc?list=PL1&t=42") =
    resolveExternalRouteTarget preferredTarget "https://youtu.be/abc?list=PL1&t=42".
Proof.
  apply (@route_stable_under_normalisation WebURL.platform WebURL_laws).
  intros parsed Hp. vm_compute in Hp. injection Hp as <-.
  vm_compute. reflexivity.
Defined.
